(** * wander: an asynchronous client for the Wandbox HTTP API

    A shallow embedding of [wander/wander.py] (class [Wandbox] and the
    exit hook) and the properties of its specification.

    Python objects live in an explicit world: the [Wandbox] instances with
    their [session] attribute, the class attribute [Wandbox.active] shared
    by all instances, and a log of what was handed to the HTTP transport.
    Methods are computations in a state and exception monad over that world.
    The transport (aiohttp) and the JSON decoder are external collaborators
    and enter through the class [Remote]. *)

From stdpp Require Import base option list strings gmap pretty.
From Stdlib Require Import ZArith Ascii String.

Set Warnings "-register-all".
#[global] Arguments String.append !s1 s2 : simpl nomatch.

Open Scope string_scope.
Open Scope Z_scope.

(** ** Python values

    The values that travel through the client: request parameters, keyword
    arguments and decoded JSON documents.  A [dict] is an association list
    in insertion order (the order [json.dumps] writes it in); strings are
    sequences of code points below 256. *)

Inductive value : Type :=
  | VNone
  | VBool (b : bool)
  | VInt (n : Z)
  | VStr (s : string)
  | VList (l : list value)
  | VDict (d : list (string * value)).

(** [d[k]] on a dict: the value bound to [k], if any. *)
Fixpoint dict_get (d : list (string * value)) (k : string) : option value :=
  match d with
  | [] => None
  | (k', v) :: d' => if String.eqb k' k then Some v else dict_get d' k
  end.

(** [isinstance(v, dict)] *)
Definition is_dict (v : value) : bool :=
  match v with VDict _ => true | _ => false end.

(** ** Exceptions and results *)

Inductive exn : Type :=
  | HTTPStatusError (status : Z) (url : string)
  | ConnectionError
  | DecodeError
  | KeyError (k : string)
  | TypeError
  | AttributeError
  | ValueError.

Inductive result (A : Type) : Type :=
  | Ok (a : A)
  | Raise (e : exn).
Arguments Ok {A} a.
Arguments Raise {A} e.

(** ** The transport's data *)

Inductive verb := GET | POST.

(** What [session.get] / [session.post] receive. *)
Record Request := mkRequest {
  req_verb : verb;
  req_url : string;
  req_ssl : bool;
  req_kwargs : gmap string value
}.

(** What the client reads of an [aiohttp.ClientResponse]. *)
Record Response := mkResponse {
  status : Z;
  request_url : string;
  content_type : string;
  charset : option string;
  body : string
}.

(** An [aiohttp.ClientSession] object: its identity and its [closed] flag. *)
Record ClientSession := mkSession {
  sid : nat;
  closed : bool
}.

Inductive decoder := JSONDecoder | NDJSONDecoder.

Inductive event :=
  | EvSend (s : ClientSession) (req : Request)
  | EvDecode (dec : decoder) (r : Response).

(** ** The world *)

Record World := mkWorld {
  objs : gmap nat (option ClientSession); (* instance |-> self.session *)
  active : list nat;                      (* Wandbox.active *)
  created : nat;                          (* ClientSession() calls so far *)
  log : list event                        (* traffic with the transport *)
}.

Definition world0 : World :=
  {| objs := ∅; active := []; created := 0%nat; log := [] |}.

Definition set_objs (f : gmap nat (option ClientSession) → gmap nat (option ClientSession))
    (w : World) : World :=
  {| objs := f (objs w); active := active w; created := created w; log := log w |}.
Definition set_active (f : list nat → list nat) (w : World) : World :=
  {| objs := objs w; active := f (active w); created := created w; log := log w |}.
Definition set_created (f : nat → nat) (w : World) : World :=
  {| objs := objs w; active := active w; created := f (created w); log := log w |}.
Definition set_log (f : list event → list event) (w : World) : World :=
  {| objs := objs w; active := active w; created := created w; log := f (log w) |}.

(** [self.session] of an instance; an object without the attribute value
    yet reads as [None]. *)
Definition session_of (w : World) (self : nat) : option ClientSession :=
  default None (objs w !! self).

(** ** The monad of methods: state and exceptions *)

Definition M (A : Type) : Type := World → result A * World.

#[global] Instance M_ret : MRet M := λ A a w, (Ok a, w).
#[global] Instance M_bind : MBind M := λ A B f m w,
  match m w with
  | (Ok a, w') => f a w'
  | (Raise e, w') => (Raise e, w')
  end.

Definition throw {A} (e : exn) : M A := λ w, (Raise e, w).
Definition gets {A} (f : World → A) : M A := λ w, (Ok (f w), w).
Definition modify (f : World → World) : M unit := λ w, (Ok tt, f w).
Definition lift {A} (r : result A) : M A := λ w, (r, w).

Definition outcome {A} (p : result A * World) : result A := p.1.
Definition final {A} (p : result A * World) : World := p.2.

(** ** Connection lifecycle *)

(** [aiohttp.ClientSession()]: a fresh, open session. *)
Definition new_session : M ClientSession := λ w,
  (Ok {| sid := created w; closed := false |}, set_created S w).

(** [list.remove(x)]: drops the first occurrence. *)
Fixpoint list_remove (x : nat) (l : list nat) : list nat :=
  match l with
  | [] => []
  | y :: l' => if decide (y = x) then l' else y :: list_remove x l'
  end.

(** [Wandbox.active.append(self)] *)
Definition active_append (self : nat) : M unit :=
  modify (set_active (λ a, (a ++ [self])%list)).

(** [Wandbox.active.remove(self)]: [ValueError] when absent. *)
Definition active_remove (self : nat) : M unit :=
  a ← gets active;
  if bool_decide (self ∈ a) then modify (set_active (list_remove self))
  else throw ValueError.

(** [self.session = s] *)
Definition set_session (self : nat) (s : option ClientSession) : M unit :=
  modify (set_objs <[self := s]>).

(** [await self.session.close()]: the session object becomes closed.  The
    session is kept with its instance: each instance holds a session object
    of its own, as in every world the constructor, [connect] and [close]
    lead to. *)
Definition session_close (self : nat) (s : ClientSession) : M unit :=
  set_session self (Some {| sid := sid s; closed := true |}).

Definition connect (self : nat) : M unit :=
  s ← gets (λ w, session_of w self);
  match s with
  | None =>
      s' ← new_session;
      set_session self (Some s');;
      active_append self
  | Some s0 =>
      (if closed s0 then s' ← new_session; set_session self (Some s')
       else mret tt);;
      a ← gets active;
      if bool_decide (self ∉ a) then active_append self else mret tt
  end.

Definition close (self : nat) : M unit :=
  s ← gets (λ w, session_of w self);
  match s with
  | Some s0 =>
      if negb (closed s0) then session_close self s0;; active_remove self
      else mret tt
  | None => mret tt
  end.

(** [Wandbox()]: a new object, [self.session = None], then [self.connect()]. *)
Definition __init__ : M nat :=
  self ← gets (λ w, fresh (dom (objs w)));
  set_session self None;;
  connect self;;
  mret self.

(** The calls a program can make on the lifecycle, on objects that exist. *)
Inductive lifecycle_step : World → World → Prop :=
  | step_init w : lifecycle_step w (final (__init__ w))
  | step_connect w i : i ∈ dom (objs w) → lifecycle_step w (final (connect i w))
  | step_close w i : i ∈ dom (objs w) → lifecycle_step w (final (close i w)).

Definition reachable : World → Prop := rtc lifecycle_step world0.

(** ** [json.dumps]

    Python's encoder with its defaults: items separated by [", "], keys
    from values by [": "], and [ensure_ascii] escaping of strings. *)

Definition dquote : ascii := "034"%char.

Definition hex_digit (n : N) : ascii :=
  match n with
  | 0 => "0" | 1 => "1" | 2 => "2" | 3 => "3" | 4 => "4" | 5 => "5"
  | 6 => "6" | 7 => "7" | 8 => "8" | 9 => "9" | 10 => "a" | 11 => "b"
  | 12 => "c" | 13 => "d" | 14 => "e" | _ => "f"
  end%N%char.

(** [ESCAPE_DCT] and the [\uXXXX] fallback for what is not printable ASCII. *)
Definition escape_char (c : ascii) : string :=
  let n := N_of_ascii c in
  if (n =? 34)%N then String "\" (String dquote EmptyString)
  else if (n =? 92)%N then "\\"
  else if (n =? 8)%N then "\b"
  else if (n =? 12)%N then "\f"
  else if (n =? 10)%N then "\n"
  else if (n =? 13)%N then "\r"
  else if (n =? 9)%N then "\t"
  else if ((32 <=? n) && (n <=? 126))%N then String c EmptyString
  else "\u00" ++ String (hex_digit (n / 16)) (String (hex_digit (n mod 16)) EmptyString).

Fixpoint escape (s : string) : string :=
  match s with
  | EmptyString => EmptyString
  | String c s' => escape_char c ++ escape s'
  end.

Definition dumps_str (s : string) : string :=
  String dquote (escape s ++ String dquote EmptyString).

Fixpoint join (sep : string) (l : list string) : string :=
  match l with
  | [] => ""
  | [x] => x
  | x :: l' => x ++ sep ++ join sep l'
  end.

Fixpoint dumps (v : value) : string :=
  match v with
  | VNone => "null"
  | VBool true => "true"
  | VBool false => "false"
  | VInt n => pretty n
  | VStr s => dumps_str s
  | VList l => "[" ++ join ", " (map dumps l) ++ "]"
  | VDict d =>
      "{" ++ join ", " (map (λ kv, match kv with
                                   | (k, x) => dumps_str k ++ ": " ++ dumps x
                                   end) d) ++ "}"
  end.

(** ** Lines of an ND-JSON body *)

Definition LF : ascii := "010"%char.

(** The lines of a text, split at line feeds; [cur] is the line being read,
    and a final line feed opens no further line. *)
Fixpoint lines_from (cur : string) (s : string) : list string :=
  match s with
  | EmptyString => if String.eqb cur "" then [] else [cur]
  | String c s' =>
      if Ascii.eqb c LF then cur :: lines_from "" s'
      else lines_from (cur ++ String c EmptyString) s'
  end.

Definition splitlines (s : string) : list string := lines_from "" s.

(** Decode every line, in order; the first failure is the result. *)
Fixpoint decode_each (loads : string → result value) (ls : list string)
    : result (list value) :=
  match ls with
  | [] => Ok []
  | l :: ls' =>
      match loads l with
      | Raise e => Raise e
      | Ok v =>
          match decode_each loads ls' with
          | Raise e => Raise e
          | Ok vs => Ok (v :: vs)
          end
      end
  end.

(** A text without line feed, and lines put together into a body, each
    ended by a line feed. *)
Fixpoint no_LF (s : string) : bool :=
  match s with
  | EmptyString => true
  | String c s' => negb (Ascii.eqb c LF) && no_LF s'
  end.

Fixpoint unlines (ls : list string) : string :=
  match ls with
  | [] => ""
  | l :: ls' => l ++ String LF (unlines ls')
  end.

Definition kw_headers_json : value :=
  VDict [("Content-type", VStr "application/json"); ("Accept", VStr "text/plain")].
Definition kw_headers_ndjson : value :=
  VDict [("Content-type", VStr "application/x-ndjson"); ("Accept", VStr "text/plain")].

(** [Wandbox.url.format(path)] *)
Definition url_format (path : string) : string := "https://wandbox.org/api/" ++ path.

(** A call [f(k1=.., .., **kwargs)]: Python refuses a keyword given twice. *)
Definition no_duplicate_kw (explicit : list string) (kwargs : gmap string value)
    : M unit :=
  match List.find (λ k, bool_decide (is_Some (kwargs !! k))) explicit with
  | Some _ => throw TypeError
  | None => mret tt
  end.

(** Is the status one of the 2xx? *)
Definition is_2xx (st : Z) : bool := (200 <=? st) && (st <? 300).

(** Modelled from the spec: the transport's [response.raise_for_status()],
    which is aiohttp's and not part of this repository.  On a non-2xx status
    it fails with an [HTTPStatusError] carrying the status code and the URL;
    otherwise it does nothing. *)
Definition raise_for_status (r : Response) : M unit :=
  if is_2xx (status r) then mret tt
  else throw (HTTPStatusError (status r) (request_url r)).

(** The client's collaborators, which the environment supplies:
    [json_loads] is [json.JSONDecoder().decode], one JSON document from a
    text; [transport] is the remote end as reached through a session, what
    [session.get] or [session.post] answers to a request, a response or a
    failure. *)
Class Remote := {
  json_loads : string → result value;
  transport : ClientSession → Request → result Response
}.

Section Client.

Context {remote : Remote}.

(** Modelled from the spec: [ndjson.Decoder().decode], which is the ndjson
    package's and not part of this repository.  It decodes a sequence of
    JSON values, one per line, and the result is the ordered sequence of
    decoded values. *)
Definition ndjson_loads (s : string) : result value :=
  match decode_each json_loads (splitlines s) with
  | Ok vs => Ok (VList vs)
  | Raise e => Raise e
  end.

Definition decode (dec : decoder) : string → result value :=
  match dec with
  | JSONDecoder => json_loads
  | NDJSONDecoder => ndjson_loads
  end.

(** Modelled from the spec: the transport's [response.json(content_type,
    loads, encoding)], aiohttp's.  The response bytes, read as text under
    [encoding] (here [body] is that text), are handed to [loads]; the
    expected content type is the response's own. *)
Definition response_json (r : Response) (expected_type : string)
    (loads : decoder) (encoding : option string) : M value :=
  modify (set_log (λ l, (l ++ [EvDecode loads r])%list));;
  lift (decode loads (body r)).

Definition _parse_response (response : Response) : M value :=
  let decoder := if String.eqb (content_type response) "application/x-ndjson"
                 then NDJSONDecoder else JSONDecoder in
  let charset := charset response in
  response_json response (content_type response) decoder charset.

(** [self.session.get] and [self.session.post], called with [url=url],
    [ssl=False] and the keyword arguments: the attribute is read first,
    then the call is made. *)
Definition session_request (v : verb) (self : nat) (url : string)
    (kwargs : gmap string value) : M Response :=
  s ← gets (λ w, session_of w self);
  match s with
  | None => throw AttributeError
  | Some s0 =>
      no_duplicate_kw ["ssl"] kwargs;;
      let req := {| req_verb := v; req_url := url; req_ssl := false;
                    req_kwargs := kwargs |} in
      modify (set_log (λ l, (l ++ [EvSend s0 req])%list));;
      lift (transport s0 req)
  end.

Definition _get (self : nat) (url : string) (kwargs : gmap string value)
    : M value :=
  response ← session_request GET self url kwargs;
  raise_for_status response;;
  _parse_response response.

Definition _post (self : nat) (url : string) (kwargs : gmap string value)
    : M value :=
  response ← session_request POST self url kwargs;
  raise_for_status response;;
  _parse_response response.

Definition compilers (self : nat) (kwargs : gmap string value) : M value :=
  let headers := kw_headers_json in
  no_duplicate_kw ["url"; "headers"] kwargs;;
  _get self (url_format "list.json") (<["headers" := headers]> kwargs).

Definition get_permlink (self : nat) (link : string)
    (kwargs : gmap string value) : M value :=
  no_duplicate_kw ["url"] kwargs;;
  _get self (url_format ("permlink/" ++ link)) kwargs.

Definition get_template (self : nat) (name : string)
    (kwargs : gmap string value) : M value :=
  no_duplicate_kw ["url"] kwargs;;
  code ← _get self (url_format ("template/" ++ name)) kwargs;
  match code with
  | VDict d =>
      match dict_get d "code" with
      | Some v => mret v
      | None => throw (KeyError "code")
      end
  | _ => mret code
  end.

Definition get_user (self : nat) (session : value)
    (kwargs : gmap string value) : M value :=
  let data := VStr (dumps (VDict [("session", session)])) in
  no_duplicate_kw ["url"; "data"] kwargs;;
  _get self (url_format "url.json") (<["data" := data]> kwargs).

Definition compile_params
    (code compiler codes compiler_option_raw options runtime_option_raw
     save stdin : value) : value :=
  VDict [("code", code); ("codes", codes); ("compiler", compiler);
         ("compiler-option-raw", compiler_option_raw); ("options", options);
         ("runtime-option-raw", runtime_option_raw); ("save", save);
         ("stdin", stdin)].

Definition compile (self : nat)
    (code compiler codes compiler_option_raw options runtime_option_raw
     save stdin : value) (kwargs : gmap string value) : M value :=
  let params := compile_params code compiler codes compiler_option_raw
                  options runtime_option_raw save stdin in
  let headers := kw_headers_json in
  let kwargs := <["headers" := headers]>
                  (<["data" := VStr (dumps params)]> kwargs) in
  no_duplicate_kw ["url"] kwargs;;
  _post self (url_format "compile.json") kwargs.

Definition compile_nd_params
    (code compiler codes compiler_option_raw options runtime_option_raw
     stdin : value) : value :=
  VDict [("code", code); ("codes", codes); ("compiler", compiler);
         ("compiler-option-raw", compiler_option_raw); ("options", options);
         ("runtime-option-raw", runtime_option_raw); ("stdin", stdin)].

Definition compile_nd (self : nat)
    (code compiler codes compiler_option_raw options runtime_option_raw
     stdin : value) (kwargs : gmap string value) : M value :=
  let params := compile_nd_params code compiler codes compiler_option_raw
                  options runtime_option_raw stdin in
  let headers := kw_headers_ndjson in
  let kwargs := <["headers" := headers]>
                  (<["data" := VStr (dumps params)]> kwargs) in
  no_duplicate_kw ["url"] kwargs;;
  _post self (url_format "compile.ndjson") kwargs.

Definition post_permlink_params
    (code compiler codes compiler_option_raw options results
     runtime_option_raw stdin : value) : value :=
  VDict [("code", code); ("codes", codes); ("compiler", compiler);
         ("compiler-option-raw", compiler_option_raw); ("options", options);
         ("results", results); ("runtime-option-raw", runtime_option_raw);
         ("stdin", stdin)].

Definition post_permlink (self : nat)
    (code compiler codes compiler_option_raw options results
     runtime_option_raw stdin : value) (kwargs : gmap string value)
    : M value :=
  let params := post_permlink_params code compiler codes compiler_option_raw
                  options results runtime_option_raw stdin in
  let kwargs := <["params" := VStr (dumps params)]> kwargs in
  no_duplicate_kw ["url"] kwargs;;
  _post self (url_format "permlink") kwargs.

(** The endpoint methods with their arguments, to speak of all of them. *)
Inductive endpoint_call :=
  | Compilers (kwargs : gmap string value)
  | GetPermlink (link : string) (kwargs : gmap string value)
  | GetTemplate (name : string) (kwargs : gmap string value)
  | GetUser (session : value) (kwargs : gmap string value)
  | Compile (code compiler codes compiler_option_raw options
             runtime_option_raw save stdin : value)
            (kwargs : gmap string value)
  | CompileNd (code compiler codes compiler_option_raw options
               runtime_option_raw stdin : value)
              (kwargs : gmap string value)
  | PostPermlink (code compiler codes compiler_option_raw options results
                  runtime_option_raw stdin : value)
                 (kwargs : gmap string value).

Definition call_endpoint (self : nat) (c : endpoint_call) : M value :=
  match c with
  | Compilers kw => compilers self kw
  | GetPermlink link kw => get_permlink self link kw
  | GetTemplate name kw => get_template self name kw
  | GetUser session kw => get_user self session kw
  | Compile a b c d e f g h kw => compile self a b c d e f g h kw
  | CompileNd a b c d e f g kw => compile_nd self a b c d e f g kw
  | PostPermlink a b c d e f g h kw => post_permlink self a b c d e f g h kw
  end.

(** The decoder [_parse_response] picks for a response. *)
Definition chosen_decoder (r : Response) : decoder :=
  if String.eqb (content_type r) "application/x-ndjson"
  then NDJSONDecoder else JSONDecoder.

(** One request and the handling of its response, as [_get] and [_post]
    do it. *)
Definition fetch (v : verb) (self : nat) (url : string)
    (kwargs : gmap string value) (w : World) : result value * World :=
  match session_of w self with
  | None => (Raise AttributeError, w)
  | Some s =>
      if bool_decide (is_Some (kwargs !! "ssl")) then (Raise TypeError, w)
      else
        let req := {| req_verb := v; req_url := url; req_ssl := false;
                      req_kwargs := kwargs |} in
        let w1 := set_log (λ l, (l ++ [EvSend s req])%list) w in
        match transport s req with
        | Raise e => (Raise e, w1)
        | Ok r =>
            if is_2xx (status r) then _parse_response r w1
            else (Raise (HTTPStatusError (status r) (request_url r)), w1)
        end
  end.

(** The single request an endpoint call hands to [_get] or [_post]: verb,
    URL and keyword arguments; none when Python refuses the call for a
    keyword given twice. *)
Definition kw_free (names : list string) (kwargs : gmap string value) : bool :=
  forallb (λ k, negb (bool_decide (is_Some (kwargs !! k)))) names.

Definition endpoint_request (c : endpoint_call)
    : option (verb * string * gmap string value) :=
  match c with
  | Compilers kw =>
      if kw_free ["url"; "headers"] kw
      then Some (GET, url_format "list.json", <["headers" := kw_headers_json]> kw)
      else None
  | GetPermlink link kw =>
      if kw_free ["url"] kw
      then Some (GET, url_format ("permlink/" ++ link), kw) else None
  | GetTemplate name kw =>
      if kw_free ["url"] kw
      then Some (GET, url_format ("template/" ++ name), kw) else None
  | GetUser session kw =>
      if kw_free ["url"; "data"] kw
      then Some (GET, url_format "url.json",
                 <["data" := VStr (dumps (VDict [("session", session)]))]> kw)
      else None
  | Compile a b c d e f g h kw =>
      let kw' := <["headers" := kw_headers_json]>
                   (<["data" := VStr (dumps (compile_params a b c d e f g h))]> kw) in
      if kw_free ["url"] kw'
      then Some (POST, url_format "compile.json", kw') else None
  | CompileNd a b c d e f g kw =>
      let kw' := <["headers" := kw_headers_ndjson]>
                   (<["data" := VStr (dumps (compile_nd_params a b c d e f g))]> kw) in
      if kw_free ["url"] kw'
      then Some (POST, url_format "compile.ndjson", kw') else None
  | PostPermlink a b c d e f g h kw =>
      let kw' := <["params" := VStr (dumps (post_permlink_params a b c d e f g h))]> kw in
      if kw_free ["url"] kw'
      then Some (POST, url_format "permlink", kw') else None
  end.

(** What an endpoint does with the decoded value: only [get_template]
    looks into it. *)
Definition unwrap_code (p : result value * World) : result value * World :=
  match p with
  | (Ok (VDict d), w) =>
      match dict_get d "code" with
      | Some v => (Ok v, w)
      | None => (Raise (KeyError "code"), w)
      end
  | _ => p
  end.

Definition endpoint_finish (c : endpoint_call) (p : result value * World)
    : result value * World :=
  match c with
  | GetTemplate _ _ => unwrap_code p
  | _ => p
  end.

(** The events a run added to the log. *)
Definition new_events {A} (m : M A) (w : World) : list event :=
  drop (List.length (log w)) (log (final (m w))).

End Client.

(** A sample decoder and a sample remote end, for the worked examples. *)
Definition hello : value := VStr "hello".
Definition hello_envelope : value := VDict [("code", VStr "hello")].

Definition sample_loads (s : string) : result value :=
  if String.eqb s (dumps hello) then Ok hello
  else if String.eqb s (dumps hello_envelope) then Ok hello_envelope
  else if String.eqb s "1" then Ok (VInt 1)
  else if String.eqb s "2" then Ok (VInt 2)
  else if String.eqb s "true" then Ok (VBool true)
  else if String.eqb s "{}" then Ok (VDict [])
  else Raise DecodeError.

(** A remote end that answers every request with [r]. *)
Definition sample_remote (r : Response) : Remote :=
  {| json_loads := sample_loads; transport := λ _ _, Ok r |}.

Definition sample_response (st : Z) (text : string) : Response :=
  {| status := st; request_url := "https://wandbox.org/api/sample";
     content_type := "application/json"; charset := Some "utf-8";
     body := text |}.

Definition not_found : Response := sample_response 404 "Not Found".
Definition ok_empty : Response := sample_response 200 "{}".

(** The requests of [compilers()] and of a [compile] call, as the transport
    receives them. *)
Definition list_request : Request :=
  {| req_verb := GET; req_url := "https://wandbox.org/api/list.json";
     req_ssl := false;
     req_kwargs := <["headers" := kw_headers_json]> ∅ |}.

Definition compile_request : Request :=
  {| req_verb := POST; req_url := "https://wandbox.org/api/compile.json";
     req_ssl := false;
     req_kwargs :=
       <["headers" := kw_headers_json]>
         (<["data" := VStr (dumps (compile_params (VStr "print(1)")
                              (VStr "cpython-3.8.0") (VList []) (VBool false)
                              (VStr "") (VBool true) (VBool false) (VStr "")))]>
            ∅) |}.

Definition compile_nd_request : Request :=
  {| req_verb := POST; req_url := "https://wandbox.org/api/compile.ndjson";
     req_ssl := false;
     req_kwargs :=
       <["headers" := kw_headers_ndjson]>
         (<["data" := VStr (dumps (compile_nd_params (VStr "print(1)")
                              (VStr "cpython-3.8.0") (VList []) (VBool false)
                              (VStr "") (VBool true) (VStr "")))]>
            ∅) |}.

Definition post_permlink_request : Request :=
  {| req_verb := POST; req_url := "https://wandbox.org/api/permlink";
     req_ssl := false;
     req_kwargs :=
       <["params" := VStr (dumps (post_permlink_params (VStr "print(1)")
                             (VStr "cpython-3.8.0") (VList []) (VBool false)
                             (VStr "") (VList []) (VBool true) (VStr "")))]>
         ∅ |}.

(** The world after one [Wandbox()], and the session of that instance. *)
Definition open_world : World := final (__init__ world0).
Definition first_session : ClientSession := {| sid := 0; closed := false |}.

(** What holds of the instances and the registry between calls. *)
Definition lifecycle_inv (w : World) : Prop :=
  NoDup (active w)
  ∧ (∀ i, i ∈ active w → ∃ s, objs w !! i = Some (Some s))
  ∧ (∀ i, objs w !! i ≠ Some None)
  ∧ (∀ i s, objs w !! i = Some (Some s) → closed s = false → i ∈ active w).

(** Two instances are built, the first is closed, the second connected
    again. *)
Definition lifecycle_sample : World :=
  final (connect 1 (final (close 0 (final (__init__ (final (__init__ world0))))))).

(** The keyword arguments the caller gave to an endpoint call. *)
Definition call_kwargs (c : endpoint_call) : gmap string value :=
  match c with
  | Compilers kw | GetPermlink _ kw | GetTemplate _ kw | GetUser _ kw
  | Compile _ _ _ _ _ _ _ _ kw | CompileNd _ _ _ _ _ _ _ kw
  | PostPermlink _ _ _ _ _ _ _ _ kw => kw
  end.

(** A remote end that cannot be reached. *)
Definition unreachable_remote : Remote :=
  {| json_loads := sample_loads; transport := λ _ _, Raise ConnectionError |}.

(** The request of [get_permlink("abc", timeout=5)]. *)
Definition permlink_request : Request :=
  {| req_verb := GET; req_url := "https://wandbox.org/api/permlink/abc";
     req_ssl := false; req_kwargs := {["timeout" := VInt 5]} |}.

(** The request of [get_user("tok")]. *)
Definition user_request : Request :=
  {| req_verb := GET; req_url := "https://wandbox.org/api/url.json";
     req_ssl := false;
     req_kwargs := <["data" := VStr (dumps (VDict [("session", VStr "tok")]))]> ∅ |}.

(** Two connected instances. *)
Definition two_instances : World := final (__init__ (final (__init__ world0))).

(** [close()] on each instance of a list, one call after the other. *)
Fixpoint close_each (l : list nat) : M unit :=
  match l with
  | [] => mret tt
  | i :: l' => close i;; close_each l'
  end.

(** What holds of the sessions between calls: a registered instance is
    open, and sessions are numbered below [created] and never shared. *)
Definition sessions_inv (w : World) : Prop :=
  (∀ i s, i ∈ active w → objs w !! i = Some (Some s) → closed s = false)
  ∧ (∀ i s, objs w !! i = Some (Some s) → (sid s < created w)%nat)
  ∧ (∀ i j s t, objs w !! i = Some (Some s) → objs w !! j = Some (Some t) →
       sid s = sid t → i = j).


(** * Properties *)

(** ** Connection lifecycle *)

Ltac unfold_m :=
  unfold connect, close, __init__, active_append, active_remove, session_close,
    set_session, new_session, throw, gets, modify, lift, mbind, mret, M_bind,
    M_ret, final, outcome in *.

Lemma session_of_set_objs_insert w i s :
  session_of (set_objs <[i := s]> w) i = s.
Proof. unfold session_of, set_objs; simpl. by rewrite lookup_insert_eq. Qed.

(** What [connect] does, by cases on [self.session]. *)
Lemma connect_None w self :
  session_of w self = None →
  connect self w =
    (Ok tt, set_active (λ a, (a ++ [self])%list)
              (set_objs <[self := Some {| sid := created w; closed := false |}]>
                 (set_created S w))).
Proof. intros H. unfold_m. rewrite H. reflexivity. Qed.

Lemma connect_open w self s :
  session_of w self = Some s → closed s = false →
  connect self w =
    (Ok tt, if bool_decide (self ∉ active w)
            then set_active (λ a, (a ++ [self])%list) w else w).
Proof.
  intros H Hc. unfold_m. rewrite H, Hc. simpl.
  by destruct (bool_decide (self ∉ active w)).
Qed.

Lemma connect_closed w self s :
  session_of w self = Some s → closed s = true →
  connect self w =
    (Ok tt,
     let w' := set_objs <[self := Some {| sid := created w; closed := false |}]>
                 (set_created S w) in
     if bool_decide (self ∉ active w)
     then set_active (λ a, (a ++ [self])%list) w' else w').
Proof.
  intros H Hc. unfold_m. rewrite H, Hc. simpl.
  by destruct (bool_decide (self ∉ active w)).
Qed.

(** After [connect] the instance holds an open session and is registered. *)
Lemma connect_post w self :
  (∃ s, session_of (final (connect self w)) self = Some s ∧ closed s = false)
  ∧ self ∈ active (final (connect self w)).
Proof.
  destruct (session_of w self) as [s|] eqn:Hs.
  - destruct (closed s) eqn:Hc.
    + rewrite (connect_closed _ _ _ Hs Hc). unfold final; simpl.
      case_bool_decide as Hin; simpl.
      * split; [eexists; split; [apply session_of_set_objs_insert|done]|].
        set_solver.
      * split; [eexists; split; [apply session_of_set_objs_insert|done]|].
        done.
    + rewrite (connect_open _ _ _ Hs Hc). unfold final; simpl.
      case_bool_decide as Hin; simpl.
      * split; [by exists s|]. set_solver.
      * split; [by exists s|]. done.
  - rewrite (connect_None _ _ Hs). unfold final; simpl.
    split; [eexists; split; [apply session_of_set_objs_insert|done]|].
    set_solver.
Qed.

(** C3: calling [connect()] a second time in a row changes nothing: the
    call returns normally and leaves the whole world as the first call left
    it, so no further session has been created and the registry has not
    grown; the instance holds exactly the one open session of the first
    call and is registered. *)
Theorem connect_twice_idempotent (w : World) (self : nat) :
  let w1 := final (connect self w) in
  connect self w1 = (Ok tt, w1)
  ∧ created (final (connect self w1)) = created w1
  ∧ active (final (connect self w1)) = active w1
  ∧ (∃ s, session_of (final (connect self w1)) self = Some s ∧ closed s = false)
  ∧ self ∈ active w1.
Proof.
  intros w1.
  destruct (connect_post w self) as [(s & Hs & Hc) Hin]. fold w1 in Hs, Hin.
  assert (Heq : connect self w1 = (Ok tt, w1)).
  { rewrite (connect_open _ _ _ Hs Hc).
    rewrite bool_decide_eq_false_2; [done|]. by intros ?. }
  rewrite Heq. unfold final; simpl. repeat split; eauto.
Qed.

Example connect_after_constructor :
  let w1 := final (__init__ world0) in
  created w1 = 1%nat ∧ active w1 = [0%nat]
  ∧ created (final (connect 0 w1)) = 1%nat
  ∧ active (final (connect 0 w1)) = [0%nat].
Proof. vm_compute. done. Qed.

(** What [close] does, by cases on [self.session]. *)
Lemma close_open w self s :
  session_of w self = Some s → closed s = false →
  close self w =
    let w' := set_objs <[self := Some {| sid := sid s; closed := true |}]> w in
    if bool_decide (self ∈ active w)
    then (Ok tt, set_active (list_remove self) w') else (Raise ValueError, w').
Proof.
  intros H Hc. unfold_m. rewrite H, Hc. simpl.
  by destruct (bool_decide (self ∈ active w)).
Qed.

(** C4: on an instance whose session was never opened, or is closed,
    [close()] returns normally and leaves the world, hence the instance's
    session and the registry, as it was. *)
Theorem close_noop_when_not_open (w : World) (self : nat) :
  (session_of w self = None
   ∨ ∃ s, session_of w self = Some s ∧ closed s = true) →
  close self w = (Ok tt, w).
Proof.
  intros [H | (s & H & Hc)]; unfold_m; rewrite H; [done|].
  by rewrite Hc.
Qed.


Lemma close_noop_closed w self s :
  session_of w self = Some s → closed s = true → close self w = (Ok tt, w).
Proof. intros H Hc. unfold_m. by rewrite H, Hc. Qed.

Lemma close_noop_when_not_open_witness :
  session_of (final (close 0 (final (__init__ world0)))) 0
    = Some {| sid := 0; closed := true |}
  ∧ close 0 (final (close 0 (final (__init__ world0))))
    = (Ok tt, final (close 0 (final (__init__ world0)))).
Proof.
  split; [reflexivity|].
  apply close_noop_when_not_open. right.
  exists {| sid := 0; closed := true |}. split; reflexivity.
Defined.

(** What the constructor does. *)
Lemma init_spec w :
  __init__ w =
    let self := fresh (dom (objs w)) in
    (Ok self,
     set_active (λ a, (a ++ [self])%list)
       (set_objs (λ o, <[self := Some {| sid := created w; closed := false |}]>
                         (<[self := None]> o))
          (set_created S w))).
Proof.
  unfold __init__. unfold mbind at 1. unfold M_bind, gets.
  unfold mbind at 1. unfold M_bind. unfold set_session at 1. unfold modify.
  unfold mbind at 1. unfold M_bind.
  rewrite connect_None by apply session_of_set_objs_insert.
  reflexivity.
Qed.

(** C7, as the code has it: the constructor itself opens the transport.  It
    returns the new instance holding a fresh open session, one more session
    has been created, and the instance is appended to the registry. *)
Theorem init_creates_transport (w : World) :
  let self := fresh (dom (objs w)) in
  outcome (__init__ w) = Ok self
  ∧ session_of (final (__init__ w)) self
    = Some {| sid := created w; closed := false |}
  ∧ created (final (__init__ w)) = S (created w)
  ∧ active (final (__init__ w)) = (active w ++ [self])%list.
Proof.
  intros self. rewrite init_spec. fold self. unfold outcome, final; simpl.
  repeat split. unfold session_of; simpl. by rewrite lookup_insert_eq.
Qed.

(** C7, as stated, fails: in the empty world [Wandbox()] returns an instance
    that already holds an open session, and a session has been created. *)
Lemma init_is_not_lazy :
  outcome (__init__ world0) = Ok 0%nat
  ∧ session_of world0 0 = None
  ∧ session_of (final (__init__ world0)) 0 ≠ None
  ∧ created world0 = 0%nat
  ∧ created (final (__init__ world0)) = 1%nat.
Proof. repeat split. vm_compute. discriminate. Qed.

(** ** The registry invariant *)

Lemma list_remove_subseteq x (l : list nat) y :
  y ∈ list_remove x l → y ∈ l.
Proof.
  induction l as [|z l IH]; simpl; [done|].
  destruct (decide (z = x)) as [->|Hne].
  - intros Hy. by apply list_elem_of_further.
  - intros [->|Hy]%elem_of_cons; [apply list_elem_of_here|].
    by apply list_elem_of_further, IH.
Qed.

Lemma list_remove_NoDup x (l : list nat) : NoDup l → NoDup (list_remove x l).
Proof.
  induction 1 as [|z l Hz Hl IH]; simpl; [constructor|].
  destruct (decide (z = x)); [done|].
  constructor; [|done]. intros Hin. by apply Hz, (list_remove_subseteq x).
Qed.

Lemma list_remove_other x (l : list nat) y :
  y ≠ x → y ∈ l → y ∈ list_remove x l.
Proof.
  intros Hne. induction l as [|z l IH]; simpl; [done|].
  intros [->|Hy]%elem_of_cons.
  - rewrite decide_False by done. apply list_elem_of_here.
  - destruct (decide (z = x)); [done|]. by apply list_elem_of_further, IH.
Qed.

Lemma lifecycle_inv_world0 : lifecycle_inv world0.
Proof.
  repeat split; simpl.
  - constructor.
  - intros i Hi. by apply not_elem_of_nil in Hi.
  - intros i. by rewrite lookup_empty.
  - intros i s. by rewrite lookup_empty.
Qed.

Lemma lifecycle_inv_session w i :
  lifecycle_inv w → i ∈ dom (objs w) → ∃ s, session_of w i = Some s.
Proof.
  intros (_ & _ & Hc & _) [[s|] Hi]%elem_of_dom.
  - exists s. unfold session_of. by rewrite Hi.
  - by apply Hc in Hi.
Qed.

Lemma lifecycle_inv_init w : lifecycle_inv w → lifecycle_inv (final (__init__ w)).
Proof.
  intros (Hnd & Hreg & Hnone & Hopen). rewrite init_spec.
  unfold final; simpl.
  set (self := fresh (dom (objs w))).
  assert (Hfresh : objs w !! self = None).
  { apply not_elem_of_dom, is_fresh. }
  assert (Hnotin : self ∉ active w).
  { intros (s & Hs)%Hreg. congruence. }
  repeat split; simpl.
  - apply NoDup_app. repeat split; [done| |apply NoDup_singleton].
    intros x Hx ->%list_elem_of_singleton. done.
  - intros i [Hi | ->%list_elem_of_singleton]%elem_of_app.
    + destruct (Hreg i Hi) as (s & Hs). exists s.
      rewrite !lookup_insert_ne by congruence. done.
    + eexists. by rewrite lookup_insert_eq.
  - intros i. destruct (decide (i = self)) as [->|Hne].
    + by rewrite lookup_insert_eq.
    + rewrite !lookup_insert_ne by done. apply Hnone.
  - intros i s. destruct (decide (i = self)) as [->|Hne].
    + intros _ _. set_solver.
    + rewrite !lookup_insert_ne by done. intros Hs Hc.
      apply elem_of_app. left. by eapply Hopen.
Qed.

Lemma lifecycle_inv_connect w i :
  lifecycle_inv w → i ∈ dom (objs w) → lifecycle_inv (final (connect i w)).
Proof.
  intros Hinv Hdom.
  destruct (lifecycle_inv_session w i Hinv Hdom) as (s & Hs).
  destruct Hinv as (Hnd & Hreg & Hnone & Hopen).
  assert (Hobj : objs w !! i = Some (Some s)).
  { unfold session_of in Hs. destruct (objs w !! i) as [[?|]|] eqn:E;
      simpl in Hs; congruence. }
  destruct (closed s) eqn:Hc.
  - rewrite (connect_closed _ _ _ Hs Hc). unfold final; simpl.
    case_bool_decide as Hin; repeat split; simpl.
    + apply NoDup_app. repeat split; [done| |apply NoDup_singleton].
      intros x Hx ->%list_elem_of_singleton. done.
    + intros j [Hj | ->%list_elem_of_singleton]%elem_of_app.
      * destruct (decide (j = i)) as [->|Hne]; [done|].
        rewrite lookup_insert_ne by done. by apply Hreg.
      * eexists. by rewrite lookup_insert_eq.
    + intros j. destruct (decide (j = i)) as [->|Hne].
      * by rewrite lookup_insert_eq.
      * rewrite lookup_insert_ne by done. apply Hnone.
    + intros j s'. destruct (decide (j = i)) as [->|Hne]; [set_solver|].
      rewrite lookup_insert_ne by done. intros Hj Hcj.
      apply elem_of_app. left. by eapply Hopen.
    + done.
    + intros j Hj. destruct (decide (j = i)) as [->|Hne].
      * eexists. by rewrite lookup_insert_eq.
      * rewrite lookup_insert_ne by done. by apply Hreg.
    + intros j. destruct (decide (j = i)) as [->|Hne].
      * by rewrite lookup_insert_eq.
      * rewrite lookup_insert_ne by done. apply Hnone.
    + intros j s'. destruct (decide (j = i)) as [->|Hne]; [done|].
      rewrite lookup_insert_ne by done. apply Hopen.
  - rewrite (connect_open _ _ _ Hs Hc). unfold final; simpl.
    by rewrite bool_decide_eq_false_2 by (intros Hn; apply Hn; eauto).
Qed.

Lemma lifecycle_inv_close w i :
  lifecycle_inv w → i ∈ dom (objs w) → lifecycle_inv (final (close i w)).
Proof.
  intros Hinv Hdom.
  destruct (lifecycle_inv_session w i Hinv Hdom) as (s & Hs).
  destruct (closed s) eqn:Hc.
  - by rewrite (close_noop_closed _ _ _ Hs Hc).
  - destruct Hinv as (Hnd & Hreg & Hnone & Hopen).
    assert (Hobj : objs w !! i = Some (Some s)).
    { unfold session_of in Hs. destruct (objs w !! i) as [[?|]|] eqn:E;
        simpl in Hs; congruence. }
    rewrite (close_open _ _ _ Hs Hc). simpl.
    rewrite bool_decide_eq_true_2 by eauto.
    unfold final; simpl. repeat split; simpl.
    + by apply list_remove_NoDup.
    + intros j Hj. destruct (decide (j = i)) as [->|Hne].
      * eexists. by rewrite lookup_insert_eq.
      * rewrite lookup_insert_ne by done.
        by apply Hreg, (list_remove_subseteq i).
    + intros j. destruct (decide (j = i)) as [->|Hne].
      * by rewrite lookup_insert_eq.
      * rewrite lookup_insert_ne by done. apply Hnone.
    + intros j s'. destruct (decide (j = i)) as [->|Hne].
      * rewrite lookup_insert_eq. by intros [= <-].
      * rewrite lookup_insert_ne by done. intros Hj Hcj.
        apply list_remove_other; [done|]. by eapply Hopen.
Qed.

Lemma reachable_inv w : reachable w → lifecycle_inv w.
Proof.
  unfold reachable. intros H.
  refine (rtc_ind_r (R := lifecycle_step) (λ w, lifecycle_inv w) world0
            lifecycle_inv_world0 _ w H).
  intros w1 w2 _ Hstep IH. destruct Hstep.
  - by apply lifecycle_inv_init.
  - by apply lifecycle_inv_connect.
  - by apply lifecycle_inv_close.
Qed.

(** C10: in every world reached by constructor, [connect()] and [close()]
    calls, no instance occurs twice in the registry, and an instance whose
    session attribute is still [None] (no transport was ever created for
    it) does not occur in it. *)
Theorem registry_no_duplicates (w : World) :
  reachable w →
  NoDup (active w) ∧ ∀ i, session_of w i = None → i ∉ active w.
Proof.
  intros (Hnd & Hreg & _)%reachable_inv. split; [done|].
  intros i Hi (s & Hs)%Hreg. unfold session_of in Hi. by rewrite Hs in Hi.
Qed.

Lemma lifecycle_sample_reachable : reachable lifecycle_sample.
Proof.
  unfold reachable, lifecycle_sample.
  eapply rtc_r; [|apply step_connect; apply elem_of_dom; vm_compute; eauto].
  eapply rtc_r; [|apply step_close; apply elem_of_dom; vm_compute; eauto].
  eapply rtc_r; [|apply step_init].
  apply rtc_once, step_init.
Qed.

Lemma registry_no_duplicates_witness :
  active lifecycle_sample = [1%nat]
  ∧ NoDup (active lifecycle_sample)
  ∧ ∀ i, session_of lifecycle_sample i = None → i ∉ active lifecycle_sample.
Proof.
  split; [reflexivity|].
  apply registry_no_duplicates. exact lifecycle_sample_reachable.
Defined.

(** In a reachable world [close()] never fails: an open instance is always
    found in the registry. *)
Lemma reachable_close_ok w i :
  reachable w → i ∈ dom (objs w) → outcome (close i w) = Ok tt.
Proof.
  intros Hinv%reachable_inv Hdom.
  destruct (lifecycle_inv_session w i Hinv Hdom) as (s & Hs).
  destruct (closed s) eqn:Hc.
  - by rewrite (close_noop_closed _ _ _ Hs Hc).
  - destruct Hinv as (_ & _ & _ & Hopen).
    rewrite (close_open _ _ _ Hs Hc). simpl.
    rewrite bool_decide_eq_true_2; [done|].
    apply (Hopen i s); [|done].
    unfold session_of in Hs. destruct (objs w !! i) as [[?|]|] eqn:E;
      simpl in Hs; congruence.
Qed.

(** ** Requests and responses *)

Section ClientProps.

Context {remote : Remote}.

Lemma parse_response_spec r w :
  _parse_response r w =
    (decode (chosen_decoder r) (body r),
     set_log (λ l, (l ++ [EvDecode (chosen_decoder r) r])%list) w).
Proof. reflexivity. Qed.

Lemma get_fetch self url kwargs w : _get self url kwargs w = fetch GET self url kwargs w.
Proof.
  unfold _get, fetch, session_request, raise_for_status, no_duplicate_kw.
  unfold_m. simpl.
  destruct (session_of w self) as [s|]; [|done].
  destruct (bool_decide (is_Some (kwargs !! "ssl"))); [done|].
  simpl. destruct (transport s _) as [r|e]; [|done].
  by destruct (is_2xx (status r)).
Qed.

Lemma post_fetch self url kwargs w : _post self url kwargs w = fetch POST self url kwargs w.
Proof.
  unfold _post, fetch, session_request, raise_for_status, no_duplicate_kw.
  unfold_m. simpl.
  destruct (session_of w self) as [s|]; [|done].
  destruct (bool_decide (is_Some (kwargs !! "ssl"))); [done|].
  simpl. destruct (transport s _) as [r|e]; [|done].
  by destruct (is_2xx (status r)).
Qed.

Lemma no_duplicate_kw_free names kwargs w :
  no_duplicate_kw names kwargs w =
    if kw_free names kwargs then (Ok tt, w) else (Raise TypeError, w).
Proof.
  unfold no_duplicate_kw, kw_free.
  induction names as [|k names IH]; simpl; [done|].
  destruct (bool_decide (is_Some (kwargs !! k))); simpl; [done|].
  apply IH.
Qed.

(** Every endpoint call is one request, or none. *)
Lemma call_endpoint_fetch self c w :
  call_endpoint self c w =
    match endpoint_request c with
    | None => (Raise TypeError, w)
    | Some (v, url, kw) => endpoint_finish c (fetch v self url kw w)
    end.
Proof.
  destruct c; unfold call_endpoint, endpoint_request, endpoint_finish,
    compilers, get_permlink, get_template, get_user, compile, compile_nd,
    post_permlink.
  all: unfold mbind at 1; unfold M_bind; rewrite no_duplicate_kw_free.
  all: match goal with |- context [kw_free ?n ?k] => destruct (kw_free n k) end.
  all: try done.
  all: try (rewrite get_fetch; done).
  all: try (rewrite post_fetch; done).
  unfold mbind, M_bind. rewrite get_fetch. unfold unwrap_code.
  destruct (fetch GET self _ kwargs w) as [[[]|] w']; try done.
  by destruct (dict_get d "code").
Qed.

Lemma endpoint_finish_final c p : final (endpoint_finish c p) = final p.
Proof.
  destruct c; try done. unfold endpoint_finish, unwrap_code, final.
  destruct p as [[[]|] w']; try done. by destruct (dict_get d "code").
Qed.

Lemma endpoint_finish_raise c e w : endpoint_finish c (Raise e, w) = (Raise e, w).
Proof. by destruct c. Qed.

(** What one request leaves in the log and returns, case by case. *)
Lemma fetch_cases v self url kw w :
  let req := {| req_verb := v; req_url := url; req_ssl := false;
                req_kwargs := kw |} in
  (new_events (fetch v self url kw) w = []
   ∧ ∃ e, outcome (fetch v self url kw w) = Raise e)
  ∨ ∃ s, session_of w self = Some s ∧
      ((∃ e, transport s req = Raise e
             ∧ new_events (fetch v self url kw) w = [EvSend s req]
             ∧ outcome (fetch v self url kw w) = Raise e)
       ∨ (∃ r, transport s req = Ok r ∧ is_2xx (status r) = false
             ∧ new_events (fetch v self url kw) w = [EvSend s req]
             ∧ outcome (fetch v self url kw w)
               = Raise (HTTPStatusError (status r) (request_url r)))
       ∨ (∃ r, transport s req = Ok r ∧ is_2xx (status r) = true
             ∧ new_events (fetch v self url kw) w
               = [EvSend s req; EvDecode (chosen_decoder r) r]
             ∧ outcome (fetch v self url kw w)
               = decode (chosen_decoder r) (body r))).
Proof.
  intros req. unfold new_events, fetch.
  destruct (session_of w self) as [s|]; cycle 1.
  { left. unfold final, outcome; simpl. rewrite drop_all. eauto. }
  destruct (bool_decide (is_Some (kw !! "ssl"))).
  { left. unfold final, outcome; simpl. rewrite drop_all. eauto. }
  right. exists s. split; [done|]. fold req.
  destruct (transport s req) as [r|e] eqn:Ht.
  - destruct (is_2xx (status r)) eqn:H2.
    + right; right. exists r. rewrite parse_response_spec.
      unfold final, outcome; simpl.
      rewrite <- app_assoc, drop_app_length. done.
    + right; left. exists r. unfold final, outcome; simpl.
      rewrite drop_app_length. done.
  - left. exists e. unfold final, outcome; simpl.
    rewrite drop_app_length. done.
Qed.

Lemma new_events_endpoint self c w :
  new_events (call_endpoint self c) w =
    match endpoint_request c with
    | None => []
    | Some (v, url, kw) => new_events (fetch v self url kw) w
    end.
Proof.
  unfold new_events. rewrite call_endpoint_fetch.
  destruct (endpoint_request c) as [[[v url] kw]|].
  - by rewrite endpoint_finish_final.
  - unfold final; simpl. apply drop_all.
Qed.

(** C2: when an endpoint method receives a response whose status is not
    2xx, it raises [HTTPStatusError] with that status and URL instead of
    returning a value.  The run consists of the one request alone: the
    body is not decoded, and nothing is sent again. *)
Theorem non_2xx_raises (self : nat) (c : endpoint_call) (w : World)
    (s : ClientSession) (req : Request) (r : Response) :
  EvSend s req ∈ new_events (call_endpoint self c) w →
  transport s req = Ok r →
  is_2xx (status r) = false →
  outcome (call_endpoint self c w)
    = Raise (HTTPStatusError (status r) (request_url r))
  ∧ new_events (call_endpoint self c) w = [EvSend s req].
Proof.
  rewrite new_events_endpoint, call_endpoint_fetch.
  destruct (endpoint_request c) as [[[v url] kw]|];
    [|by intros ?%not_elem_of_nil].
  intros Hin Ht H2.
  destruct (fetch_cases v self url kw w)
    as [[Hev _] | (s0 & _ & [(e & Ht0 & Hev & Hout)
                            | [(r0 & Ht0 & H20 & Hev & Hout)
                              | (r0 & Ht0 & H20 & Hev & Hout)]])];
    rewrite Hev in Hin.
  - by apply not_elem_of_nil in Hin.
  - apply list_elem_of_singleton in Hin. injection Hin as -> ->. congruence.
  - apply list_elem_of_singleton in Hin. injection Hin as -> ->.
    assert (r0 = r) as -> by congruence.
    split; [|done].
    unfold outcome in *. destruct (fetch v self url kw w) as [o w'].
    simpl in Hout. subst o. by rewrite endpoint_finish_raise.
  - apply elem_of_cons in Hin as [Hin | Hin].
    + injection Hin as -> ->. congruence.
    + apply list_elem_of_singleton in Hin. discriminate.
Qed.

(** The request found in the log of a run is the one the method built,
    sent through the instance's own session. *)
Lemma send_in_fetch v self url kw w s req :
  EvSend s req ∈ new_events (fetch v self url kw) w →
  session_of w self = Some s
  ∧ req = {| req_verb := v; req_url := url; req_ssl := false;
             req_kwargs := kw |}.
Proof.
  intros Hin.
  destruct (fetch_cases v self url kw w)
    as [[Hev _] | (s0 & Hs & [(e & _ & Hev & _)
                             | [(r0 & _ & _ & Hev & _)
                               | (r0 & _ & _ & Hev & _)]])];
    rewrite Hev in Hin.
  - by apply not_elem_of_nil in Hin.
  - apply list_elem_of_singleton in Hin. by injection Hin as -> ->.
  - apply list_elem_of_singleton in Hin. by injection Hin as -> ->.
  - apply elem_of_cons in Hin as [Hin | Hin].
    + by injection Hin as -> ->.
    + apply list_elem_of_singleton in Hin. discriminate.
Qed.

Lemma send_in_endpoint self c w s req :
  EvSend s req ∈ new_events (call_endpoint self c) w →
  ∃ v url kw, endpoint_request c = Some (v, url, kw)
    ∧ req = {| req_verb := v; req_url := url; req_ssl := false;
               req_kwargs := kw |}.
Proof.
  rewrite new_events_endpoint.
  destruct (endpoint_request c) as [[[v url] kw]|];
    [|by intros ?%not_elem_of_nil].
  intros [_ ->]%send_in_fetch. eauto.
Qed.

(** C8, as the code has it: a request sent by [compilers] or [compile]
    carries the headers [Content-type: application/json] and
    [Accept: text/plain]; one sent by [compile_nd] carries
    [Content-type: application/x-ndjson] and [Accept: text/plain]; the
    other methods set no headers and pass on those of the caller, if
    any. *)
Theorem request_headers (self : nat) (c : endpoint_call) (w : World)
    (s : ClientSession) (req : Request) :
  EvSend s req ∈ new_events (call_endpoint self c) w →
  req_kwargs req !! "headers" =
    match c with
    | Compilers _ | Compile _ _ _ _ _ _ _ _ _ => Some kw_headers_json
    | CompileNd _ _ _ _ _ _ _ _ => Some kw_headers_ndjson
    | GetPermlink _ kw | GetTemplate _ kw | GetUser _ kw
    | PostPermlink _ _ _ _ _ _ _ _ kw => kw !! "headers"
    end.
Proof.
  intros (v & url & kw & Hreq & ->)%send_in_endpoint. simpl.
  destruct c; unfold endpoint_request in Hreq;
    match type of Hreq with
    | context [kw_free ?n ?k] => destruct (kw_free n k); [|done]
    end;
    injection Hreq as <- <- <-.
  - by rewrite lookup_insert_eq.
  - done.
  - done.
  - by rewrite lookup_insert_ne.
  - by rewrite lookup_insert_eq.
  - by rewrite lookup_insert_eq.
  - by rewrite lookup_insert_ne.
Qed.

(** *** Wire names *)

(** With a session and no clash of keywords, the request is handed to the
    transport, first of all. *)
Lemma fetch_sends v self url kw w s :
  session_of w self = Some s → kw !! "ssl" = None →
  ∃ rest, new_events (fetch v self url kw) w
          = EvSend s {| req_verb := v; req_url := url; req_ssl := false;
                        req_kwargs := kw |} :: rest.
Proof.
  intros Hs Hssl. unfold new_events, fetch. rewrite Hs, Hssl.
  rewrite bool_decide_eq_false_2 by (by intros [? ?]).
  destruct (transport s _) as [r|e].
  - destruct (is_2xx (status r)).
    + rewrite parse_response_spec. unfold final; simpl.
      rewrite <- app_assoc, drop_app_length. eauto.
    + unfold final; simpl. rewrite drop_app_length. eauto.
  - unfold final; simpl. rewrite drop_app_length. eauto.
Qed.

Lemma endpoint_sends self c w s v url kw :
  endpoint_request c = Some (v, url, kw) →
  session_of w self = Some s → kw !! "ssl" = None →
  ∃ rest, new_events (call_endpoint self c) w
          = EvSend s {| req_verb := v; req_url := url; req_ssl := false;
                        req_kwargs := kw |} :: rest.
Proof.
  intros Hreq Hs Hssl. rewrite new_events_endpoint, Hreq.
  by apply fetch_sends.
Qed.

Lemma kw_free_url (kw : gmap string value) :
  kw !! "url" = None → kw_free ["url"] kw = true.
Proof.
  intros H. unfold kw_free; simpl. rewrite H.
  by rewrite bool_decide_eq_false_2 by (by intros [? ?]).
Qed.

(** C6: on an instance with a session, and unless the keyword arguments
    clash, [compile], [compile_nd] and [post_permlink] each hand the
    transport a request that carries the text [json.dumps] makes of their
    parameter dict ([data] for the first two, [params] for the third); any
    request they send carries that text; and in each dict the parameters
    [compiler_option_raw] and [runtime_option_raw] sit under the keys
    [compiler-option-raw] and [runtime-option-raw], in the same way in all
    three; [False] is written [false]. *)
Theorem wire_keys_hyphenated (self : nat) (w : World) (s : ClientSession)
    (req : Request)
    (code compiler codes compiler_option_raw options results
     runtime_option_raw save stdin : value) (kwargs : gmap string value) :
  let key (k : string) (v : value) : string := dumps_str k ++ ": " ++ dumps v in
  let p1 := compile_params code compiler codes compiler_option_raw options
              runtime_option_raw save stdin in
  let p2 := compile_nd_params code compiler codes compiler_option_raw options
              runtime_option_raw stdin in
  let p3 := post_permlink_params code compiler codes compiler_option_raw
              options results runtime_option_raw stdin in
  (session_of w self = Some s → kwargs !! "url" = None →
   kwargs !! "ssl" = None →
     (∃ rest,
        new_events (compile self code compiler codes compiler_option_raw
                      options runtime_option_raw save stdin kwargs) w
        = EvSend s
            {| req_verb := POST;
               req_url := "https://wandbox.org/api/compile.json";
               req_ssl := false;
               req_kwargs := <["headers" := kw_headers_json]>
                               (<["data" := VStr (dumps p1)]> kwargs) |}
          :: rest)
     ∧ (∃ rest,
          new_events (compile_nd self code compiler codes compiler_option_raw
                        options runtime_option_raw stdin kwargs) w
          = EvSend s
              {| req_verb := POST;
                 req_url := "https://wandbox.org/api/compile.ndjson";
                 req_ssl := false;
                 req_kwargs := <["headers" := kw_headers_ndjson]>
                                 (<["data" := VStr (dumps p2)]> kwargs) |}
            :: rest)
     ∧ (∃ rest,
          new_events (post_permlink self code compiler codes
                        compiler_option_raw options results runtime_option_raw
                        stdin kwargs) w
          = EvSend s
              {| req_verb := POST;
                 req_url := "https://wandbox.org/api/permlink";
                 req_ssl := false;
                 req_kwargs := <["params" := VStr (dumps p3)]> kwargs |}
            :: rest))
  ∧
  (EvSend s req ∈ new_events (compile self code compiler
       codes compiler_option_raw options runtime_option_raw save stdin kwargs) w →
     req_kwargs req !! "data" = Some (VStr (dumps p1)))
  ∧ (EvSend s req ∈ new_events (compile_nd self code
       compiler codes compiler_option_raw options runtime_option_raw stdin
       kwargs) w →
     req_kwargs req !! "data" = Some (VStr (dumps p2)))
  ∧ (EvSend s req ∈ new_events (post_permlink self code
       compiler codes compiler_option_raw options results runtime_option_raw
       stdin kwargs) w →
     req_kwargs req !! "params" = Some (VStr (dumps p3)))
  ∧ dumps p1 =
      "{" ++ (key "code" code ++ ", " ++ key "codes" codes ++ ", "
      ++ key "compiler" compiler ++ ", "
      ++ key "compiler-option-raw" compiler_option_raw ++ ", "
      ++ key "options" options ++ ", "
      ++ key "runtime-option-raw" runtime_option_raw ++ ", "
      ++ key "save" save ++ ", " ++ key "stdin" stdin) ++ "}"
  ∧ dumps p2 =
      "{" ++ (key "code" code ++ ", " ++ key "codes" codes ++ ", "
      ++ key "compiler" compiler ++ ", "
      ++ key "compiler-option-raw" compiler_option_raw ++ ", "
      ++ key "options" options ++ ", "
      ++ key "runtime-option-raw" runtime_option_raw ++ ", "
      ++ key "stdin" stdin) ++ "}"
  ∧ dumps p3 =
      "{" ++ (key "code" code ++ ", " ++ key "codes" codes ++ ", "
      ++ key "compiler" compiler ++ ", "
      ++ key "compiler-option-raw" compiler_option_raw ++ ", "
      ++ key "options" options ++ ", " ++ key "results" results ++ ", "
      ++ key "runtime-option-raw" runtime_option_raw ++ ", "
      ++ key "stdin" stdin) ++ "}"
  ∧ dumps (VBool false) = "false".
Proof.
  intros key p1 p2 p3. split.
  { intros Hs Hurl Hssl. split; [|split].
    - apply (endpoint_sends self (Compile code compiler codes
               compiler_option_raw options runtime_option_raw save stdin
               kwargs)); [|done|by rewrite !lookup_insert_ne by done].
      unfold endpoint_request.
      by rewrite kw_free_url by (by rewrite !lookup_insert_ne by done).
    - apply (endpoint_sends self (CompileNd code compiler codes
               compiler_option_raw options runtime_option_raw stdin kwargs));
        [|done|by rewrite !lookup_insert_ne by done].
      unfold endpoint_request.
      by rewrite kw_free_url by (by rewrite !lookup_insert_ne by done).
    - apply (endpoint_sends self (PostPermlink code compiler codes
               compiler_option_raw options results runtime_option_raw stdin
               kwargs)); [|done|by rewrite !lookup_insert_ne by done].
      unfold endpoint_request.
      by rewrite kw_free_url by (by rewrite !lookup_insert_ne by done). }
  repeat split.
  - intros Hin.
    apply (send_in_endpoint self (Compile code compiler codes
             compiler_option_raw options runtime_option_raw save stdin kwargs))
      in Hin as (v & url & kw & Hreq & ->).
    unfold endpoint_request in Hreq.
    match type of Hreq with
    | context [kw_free ?n ?k] => destruct (kw_free n k); [|done]
    end.
    injection Hreq as <- <- <-. simpl.
    rewrite lookup_insert_ne by done. by rewrite lookup_insert_eq.
  - intros Hin.
    apply (send_in_endpoint self (CompileNd code compiler codes
             compiler_option_raw options runtime_option_raw stdin kwargs))
      in Hin as (v & url & kw & Hreq & ->).
    unfold endpoint_request in Hreq.
    match type of Hreq with
    | context [kw_free ?n ?k] => destruct (kw_free n k); [|done]
    end.
    injection Hreq as <- <- <-. simpl.
    rewrite lookup_insert_ne by done. by rewrite lookup_insert_eq.
  - intros Hin.
    apply (send_in_endpoint self (PostPermlink code compiler codes
             compiler_option_raw options results runtime_option_raw stdin
             kwargs))
      in Hin as (v & url & kw & Hreq & ->).
    unfold endpoint_request in Hreq.
    match type of Hreq with
    | context [kw_free ?n ?k] => destruct (kw_free n k); [|done]
    end.
    injection Hreq as <- <- <-. simpl.
    by rewrite lookup_insert_eq.
Qed.

(** *** [get_template] *)

(** C5: [get_template] returns the value under [code] when the decoded
    response is a dict, and the decoded value itself otherwise; a dict
    without [code] is a [KeyError], and a failure of the request is
    passed on. *)
Theorem get_template_unwraps (self : nat) (name : string)
    (kwargs : gmap string value) (w : World) :
  kwargs !! "url" = None →
  let p := _get self (url_format ("template/" ++ name)) kwargs w in
  let q := get_template self name kwargs w in
  (∀ d v, outcome p = Ok (VDict d) → dict_get d "code" = Some v →
          q = (Ok v, final p))
  ∧ (∀ x, outcome p = Ok x → is_dict x = false → q = (Ok x, final p))
  ∧ (∀ d, outcome p = Ok (VDict d) → dict_get d "code" = None →
          q = (Raise (KeyError "code"), final p))
  ∧ (∀ e, outcome p = Raise e → q = (Raise e, final p)).
Proof.
  intros Hurl p q.
  assert (Hq : q = unwrap_code p).
  { subst q. unfold get_template.
    unfold mbind at 1. unfold M_bind. rewrite no_duplicate_kw_free.
    assert (kw_free ["url"] kwargs = true) as ->.
    { unfold kw_free; simpl. rewrite Hurl.
      by rewrite bool_decide_eq_false_2 by (by intros [? ?]). }
    unfold mbind, M_bind. fold p. clearbody p.
    destruct p as [[[]|] w']; try done. simpl.
    by destruct (dict_get d "code"). }
  clearbody p q. subst q.
  destruct p as [[x|e] w']; unfold outcome, final; simpl.
  - repeat split.
    + intros d v [= ->] Hd. by rewrite Hd.
    + intros y [= ->] Hd. by destruct y.
    + intros d [= ->] Hd. by rewrite Hd.
    + done.
  - repeat split; try done. by intros e' [= ->].
Qed.

(** *** Decoding *)

Lemma decode_each_Forall2 ls vs :
  decode_each json_loads ls = Ok vs
  ↔ Forall2 (λ l v, json_loads l = Ok v) ls vs.
Proof.
  revert vs. induction ls as [|l ls IH]; intros vs; simpl.
  - split; [intros [= <-]; constructor|].
    intros H. apply Forall2_nil_inv_l in H. by subst.
  - destruct (json_loads l) as [v|e] eqn:Hl.
    + destruct (decode_each json_loads ls) as [vs'|e] eqn:Hls.
      * split.
        -- intros [= <-]. constructor; [done|]. by apply IH.
        -- intros (v' & vs'' & Hv & Hvs & ->)%Forall2_cons_inv_l.
           apply IH in Hvs. congruence.
      * split; [done|].
        intros (v' & vs'' & Hv & Hvs & ->)%Forall2_cons_inv_l.
        apply IH in Hvs. congruence.
    + split; [done|].
      intros (v' & vs'' & Hv & Hvs & ->)%Forall2_cons_inv_l. congruence.
Qed.

(** C1: [_parse_response] picks the decoder from the declared content type
    alone.  Under [application/x-ndjson] the ND-JSON decoder is used: the
    outcome is a list exactly when every line of the body decodes, and
    then it holds the decoded lines in their order, one per line.  Under
    any other content type the JSON decoder is applied to the whole body
    and the outcome is that single document.  The log names the decoder
    that ran. *)
Theorem parse_response_by_content_type (r : Response) (w : World) :
  (content_type r = "application/x-ndjson" →
     new_events (_parse_response r) w = [EvDecode NDJSONDecoder r]
     ∧ (∀ vs, outcome (_parse_response r w) = Ok (VList vs)
              ↔ Forall2 (λ l v, json_loads l = Ok v) (splitlines (body r)) vs)
     ∧ (∀ v, outcome (_parse_response r w) = Ok v → ∃ vs, v = VList vs))
  ∧ (content_type r ≠ "application/x-ndjson" →
     new_events (_parse_response r) w = [EvDecode JSONDecoder r]
     ∧ outcome (_parse_response r w) = json_loads (body r)).
Proof.
  unfold new_events. rewrite parse_response_spec. unfold final, outcome; simpl.
  rewrite drop_app_length. unfold chosen_decoder. split.
  - intros ->. simpl. split; [done|]. unfold ndjson_loads.
    split.
    + intros vs. rewrite <- decode_each_Forall2.
      destruct (decode_each json_loads _); split; congruence.
    + intros v. destruct (decode_each json_loads _); [|done].
      intros [= <-]. eauto.
  - intros Hne. apply String.eqb_neq in Hne. by rewrite Hne.
Qed.

End ClientProps.

(** A body of line-feed-terminated lines splits back into these lines. *)
Lemma append_assoc_string (a b c : string) : ((a ++ b) ++ c = a ++ (b ++ c))%string.
Proof. induction a as [|x a IH]; simpl; [done|]. by rewrite IH. Qed.

Lemma lines_from_line cur l rest :
  no_LF l = true →
  lines_from cur (l ++ String LF rest) = (cur ++ l) :: lines_from "" rest.
Proof.
  revert cur. induction l as [|c l IH]; intros cur Hl; simpl in *.
  - by replace (cur ++ "") with cur by (induction cur; simpl; congruence).
  - apply andb_true_iff in Hl as [Hc Hl]. apply negb_true_iff in Hc.
    rewrite Hc. rewrite IH by done. by rewrite append_assoc_string.
Qed.

Lemma splitlines_unlines ls :
  Forall (λ l, no_LF l = true) ls → splitlines (unlines ls) = ls.
Proof.
  unfold splitlines. induction 1 as [|l ls Hl _ IH]; simpl; [done|].
  by rewrite lines_from_line, IH.
Qed.

Lemma parse_response_by_content_type_witness :
  outcome (_parse_response (remote := sample_remote ok_empty)
             (mkResponse 200 "u" "application/x-ndjson" None
                (unlines ["1"; "true"; "2"])) world0)
    = Ok (VList [VInt 1; VBool true; VInt 2])
  ∧ outcome (_parse_response (remote := sample_remote ok_empty)
               (mkResponse 200 "u" "application/json" None "{}") world0)
    = Ok (VDict []).
Proof.
  split.
  - apply (parse_response_by_content_type (remote := sample_remote ok_empty));
      [reflexivity|].
    repeat constructor.
  - etrans;
      [apply (parse_response_by_content_type (remote := sample_remote ok_empty));
       discriminate|].
    reflexivity.
Defined.

(** The same body under the two content types: three lines that are each a
    JSON document are a list of three values under ND-JSON, and no single
    document under JSON. *)
Example same_body_two_content_types :
  outcome (_parse_response (remote := sample_remote ok_empty)
             (mkResponse 200 "u" "application/x-ndjson" None
                (unlines ["1"; "2"; "1"])) world0)
    = Ok (VList [VInt 1; VInt 2; VInt 1])
  ∧ outcome (_parse_response (remote := sample_remote ok_empty)
               (mkResponse 200 "u" "application/json" None
                  (unlines ["1"; "2"; "1"])) world0)
    = Raise DecodeError.
Proof. split; reflexivity. Qed.

(** ** Worked runs *)

Example dumps_quotes :
  dumps (VStr "a") = String dquote (String "a" (String dquote "")).
Proof. reflexivity. Qed.

Example dumps_escapes :
  dumps (VStr (String LF (String dquote "\")))
  = String dquote ("\n\" ++ String dquote ("\\" ++ String dquote "")).
Proof. reflexivity. Qed.

Example dumps_nested :
  dumps (VList [VInt 3; VNone; VDict []; VList []; VBool true; VInt (-12)])
  = "[3, null, {}, [], true, -12]".
Proof. vm_compute. reflexivity. Qed.

Example dumps_option_false :
  dumps (VDict [("compiler-option-raw", VBool false); ("save", VBool true)])
  = "{" ++ dumps_str "compiler-option-raw" ++ ": false, "
        ++ dumps_str "save" ++ ": true}".
Proof. vm_compute. reflexivity. Qed.

Lemma non_2xx_raises_witness :
  is_2xx (status not_found) = false
  ∧ outcome (call_endpoint (remote := sample_remote not_found) 0
               (Compilers ∅) open_world)
    = Raise (HTTPStatusError 404 "https://wandbox.org/api/sample")
  ∧ new_events (call_endpoint (remote := sample_remote not_found) 0
                  (Compilers ∅)) open_world
    = [EvSend first_session list_request].
Proof.
  split; [reflexivity|].
  apply (non_2xx_raises (remote := sample_remote not_found) 0 (Compilers ∅)
           open_world first_session list_request not_found).
  - vm_compute. apply list_elem_of_here.
  - reflexivity.
  - reflexivity.
Defined.

Lemma get_template_unwraps_witness :
  outcome (get_template (remote := sample_remote (sample_response 200 (dumps hello_envelope)))
             0 "gcc" ∅ open_world) = Ok (VStr "hello")
  ∧ outcome (get_template (remote := sample_remote (sample_response 200 (dumps hello)))
               0 "gcc" ∅ open_world) = Ok (VStr "hello").
Proof.
  split.
  - rewrite (proj1 (get_template_unwraps
                      (remote := sample_remote (sample_response 200 (dumps hello_envelope)))
                      0 "gcc" ∅ open_world (lookup_empty _))
               [("code", VStr "hello")] (VStr "hello"));
      reflexivity.
  - rewrite (proj1 (proj2 (get_template_unwraps
                             (remote := sample_remote (sample_response 200 (dumps hello)))
                             0 "gcc" ∅ open_world (lookup_empty _)))
               (VStr "hello"));
      reflexivity.
Defined.

Lemma wire_keys_hyphenated_witness :
  (∃ rest,
     new_events (compile (remote := sample_remote ok_empty) 0
                   (VStr "print(1)") (VStr "cpython-3.8.0") (VList [])
                   (VBool false) (VStr "") (VBool true) (VBool false)
                   (VStr "") ∅) open_world
     = EvSend first_session compile_request :: rest)
  ∧ (∃ rest,
       new_events (compile_nd (remote := sample_remote ok_empty) 0
                     (VStr "print(1)") (VStr "cpython-3.8.0") (VList [])
                     (VBool false) (VStr "") (VBool true) (VStr "") ∅)
         open_world
       = EvSend first_session compile_nd_request :: rest)
  ∧ (∃ rest,
       new_events (post_permlink (remote := sample_remote ok_empty) 0
                     (VStr "print(1)") (VStr "cpython-3.8.0") (VList [])
                     (VBool false) (VStr "") (VList []) (VBool true)
                     (VStr "") ∅) open_world
       = EvSend first_session post_permlink_request :: rest)
  ∧ req_kwargs compile_request !! "data"
    = Some (VStr ("{" ++ dumps_str "code" ++ ": " ++ dumps_str "print(1)" ++ ", "
                  ++ dumps_str "codes" ++ ": [], "
                  ++ dumps_str "compiler" ++ ": " ++ dumps_str "cpython-3.8.0" ++ ", "
                  ++ dumps_str "compiler-option-raw" ++ ": false, "
                  ++ dumps_str "options" ++ ": " ++ dumps_str "" ++ ", "
                  ++ dumps_str "runtime-option-raw" ++ ": true, "
                  ++ dumps_str "save" ++ ": false, "
                  ++ dumps_str "stdin" ++ ": " ++ dumps_str "" ++ "}"))
  ∧ req_kwargs compile_nd_request !! "data"
    = Some (VStr ("{" ++ dumps_str "code" ++ ": " ++ dumps_str "print(1)" ++ ", "
                  ++ dumps_str "codes" ++ ": [], "
                  ++ dumps_str "compiler" ++ ": " ++ dumps_str "cpython-3.8.0" ++ ", "
                  ++ dumps_str "compiler-option-raw" ++ ": false, "
                  ++ dumps_str "options" ++ ": " ++ dumps_str "" ++ ", "
                  ++ dumps_str "runtime-option-raw" ++ ": true, "
                  ++ dumps_str "stdin" ++ ": " ++ dumps_str "" ++ "}"))
  ∧ req_kwargs post_permlink_request !! "params"
    = Some (VStr ("{" ++ dumps_str "code" ++ ": " ++ dumps_str "print(1)" ++ ", "
                  ++ dumps_str "codes" ++ ": [], "
                  ++ dumps_str "compiler" ++ ": " ++ dumps_str "cpython-3.8.0" ++ ", "
                  ++ dumps_str "compiler-option-raw" ++ ": false, "
                  ++ dumps_str "options" ++ ": " ++ dumps_str "" ++ ", "
                  ++ dumps_str "results" ++ ": [], "
                  ++ dumps_str "runtime-option-raw" ++ ": true, "
                  ++ dumps_str "stdin" ++ ": " ++ dumps_str "" ++ "}")).
Proof.
  pose proof (wire_keys_hyphenated (remote := sample_remote ok_empty) 0
                open_world first_session compile_request (VStr "print(1)")
                (VStr "cpython-3.8.0") (VList []) (VBool false) (VStr "")
                (VList []) (VBool true) (VBool false) (VStr "") ∅)
    as (Hsend & Hdata & _).
  destruct (Hsend eq_refl (lookup_empty _) (lookup_empty _))
    as ((r1 & H1) & (r2 & H2) & (r3 & H3)).
  split; [by exists r1|]. split; [by exists r2|]. split; [by exists r3|].
  split; [|split].
  - etrans; [apply Hdata; rewrite H1; apply list_elem_of_here|].
    vm_compute. reflexivity.
  - vm_compute. reflexivity.
  - vm_compute. reflexivity.
Defined.

(** C8, as stated, fails: the request of [get_permlink] on a connected
    instance carries no headers at all. *)
Lemma get_permlink_sends_no_headers :
  new_events (get_permlink (remote := sample_remote ok_empty) 0 "abc" ∅)
    open_world
  = [EvSend first_session
       {| req_verb := GET; req_url := "https://wandbox.org/api/permlink/abc";
          req_ssl := false; req_kwargs := ∅ |};
     EvDecode JSONDecoder ok_empty]
  ∧ req_kwargs
      {| req_verb := GET; req_url := "https://wandbox.org/api/permlink/abc";
         req_ssl := false; req_kwargs := ∅ |} !! "headers" = None.
Proof. split; [vm_compute|]; reflexivity. Qed.

Lemma request_headers_witness :
  EvSend first_session list_request
    ∈ new_events (call_endpoint (remote := sample_remote ok_empty) 0
                    (Compilers ∅)) open_world
  ∧ req_kwargs list_request !! "headers"
    = Some (VDict [("Content-type", VStr "application/json");
                   ("Accept", VStr "text/plain")]).
Proof.
  assert (Hin : EvSend first_session list_request
    ∈ new_events (call_endpoint (remote := sample_remote ok_empty) 0
                    (Compilers ∅)) open_world).
  { vm_compute. apply list_elem_of_here. }
  split; [exact Hin|].
  exact (request_headers (remote := sample_remote ok_empty) 0 (Compilers ∅)
           open_world first_session list_request Hin).
Defined.

(** * Further properties of the lifecycle *)

Lemma session_of_Some w i s :
  session_of w i = Some s ↔ objs w !! i = Some (Some s).
Proof.
  unfold session_of. destruct (objs w !! i) as [[?|]|]; simpl; split; congruence.
Qed.

Lemma list_remove_not_in x (l : list nat) : NoDup l → x ∉ list_remove x l.
Proof.
  induction 1 as [|z l Hz Hl IH]; simpl; [apply not_elem_of_nil|].
  destruct (decide (z = x)) as [->|Hne]; [done|].
  intros [->|Hx]%elem_of_cons; [done|]. by apply IH.
Qed.

Lemma list_remove_absent x (l : list nat) : x ∉ l → list_remove x l = l.
Proof.
  induction l as [|z l IH]; simpl; [done|].
  intros Hx. destruct (decide (z = x)) as [->|Hne].
  - exfalso. apply Hx, list_elem_of_here.
  - f_equal. apply IH. intros H. apply Hx. by apply list_elem_of_further.
Qed.

Lemma reachable_step w w' : reachable w → lifecycle_step w w' → reachable w'.
Proof. unfold reachable. intros H Hs. by eapply rtc_r. Qed.

Lemma sessions_inv_reachable w : reachable w → sessions_inv w.
Proof.
  unfold reachable. intros H.
  refine (rtc_ind_r (R := lifecycle_step) (λ w, sessions_inv w) world0 _ _ w H).
  { repeat split; simpl.
    - intros i s Hi. by apply not_elem_of_nil in Hi.
    - intros i s. by rewrite lookup_empty.
    - intros i j s t. by rewrite lookup_empty. }
  clear w H. intros w w2 Hw Hstep (Hop & Hlt & Huniq).
  destruct (reachable_inv w Hw) as (Hnd & Hreg & Hnone & Hopen).
  destruct Hstep as [w | w i Hdom | w i Hdom].
  - rewrite init_spec. unfold final; simpl.
    set (self := fresh (dom (objs w))).
    assert (Hfresh : objs w !! self = None) by apply not_elem_of_dom, is_fresh.
    repeat split; simpl.
    + intros i s Hi. destruct (decide (i = self)) as [->|Hne].
      * rewrite lookup_insert_eq. by intros [= <-].
      * rewrite !lookup_insert_ne by done.
        apply elem_of_app in Hi as [Hi | ->%list_elem_of_singleton]; [|done].
        by apply Hop.
    + intros i s. destruct (decide (i = self)) as [->|Hne].
      * rewrite lookup_insert_eq. intros [= <-]. simpl. lia.
      * rewrite !lookup_insert_ne by done. intros Hs%Hlt. lia.
    + intros i j s t.
      destruct (decide (i = self)) as [->|Hi], (decide (j = self)) as [->|Hj];
        [done| | |].
      * rewrite lookup_insert_eq, !lookup_insert_ne by done.
        intros [= <-] Ht%Hlt. simpl. lia.
      * rewrite lookup_insert_eq, !lookup_insert_ne by done.
        intros Hs%Hlt [= <-]. simpl. lia.
      * rewrite !lookup_insert_ne by done. apply Huniq.
  - destruct (lifecycle_inv_session w i (reachable_inv w Hw) Hdom) as (s & Hs).
    pose proof (proj1 (session_of_Some w i s) Hs) as Hobj.
    destruct (closed s) eqn:Hc.
    + rewrite (connect_closed _ _ _ Hs Hc). unfold final; simpl.
      assert (sessions_inv
                (set_objs <[i := Some {| sid := created w; closed := false |}]>
                   (set_created S w))) as (Hop' & Hlt' & Huniq').
      { repeat split; simpl.
        * intros j t Hj. destruct (decide (j = i)) as [->|Hne].
          -- rewrite lookup_insert_eq. by intros [= <-].
          -- rewrite lookup_insert_ne by done. by apply Hop.
        * intros j t. destruct (decide (j = i)) as [->|Hne].
          -- rewrite lookup_insert_eq. intros [= <-]. simpl. lia.
          -- rewrite lookup_insert_ne by done. intros Ht%Hlt. lia.
        * intros j k t u.
          destruct (decide (j = i)) as [->|Hj], (decide (k = i)) as [->|Hk];
            [done| | |].
          -- rewrite lookup_insert_eq, lookup_insert_ne by done.
             intros [= <-] Hu%Hlt. simpl. lia.
          -- rewrite lookup_insert_eq, lookup_insert_ne by done.
             intros Ht%Hlt [= <-]. simpl. lia.
          -- rewrite !lookup_insert_ne by done. apply Huniq. }
      case_bool_decide as Hin; [|done].
      repeat split; simpl; [|done..].
      intros j t [Hj | ->%list_elem_of_singleton]%elem_of_app.
      * by apply Hop'.
      * simpl. rewrite lookup_insert_eq. by intros [= <-].
    + rewrite (connect_open _ _ _ Hs Hc). unfold final; simpl.
      by rewrite bool_decide_eq_false_2 by (intros Hn; apply Hn; eauto).
  - destruct (lifecycle_inv_session w i (reachable_inv w Hw) Hdom) as (s & Hs).
    pose proof (proj1 (session_of_Some w i s) Hs) as Hobj.
    destruct (closed s) eqn:Hc.
    + by rewrite (close_noop_closed _ _ _ Hs Hc).
    + rewrite (close_open _ _ _ Hs Hc). simpl.
      rewrite bool_decide_eq_true_2 by eauto.
      unfold final; simpl. repeat split; simpl.
      * intros j t Hj. destruct (decide (j = i)) as [->|Hne].
        -- by apply list_remove_not_in in Hj.
        -- rewrite lookup_insert_ne by done.
           apply Hop. by apply (list_remove_subseteq i).
      * intros j t. destruct (decide (j = i)) as [->|Hne].
        -- rewrite lookup_insert_eq. intros [= <-]. simpl. by eapply Hlt.
        -- rewrite lookup_insert_ne by done. apply Hlt.
      * intros j k t u.
        destruct (decide (j = i)) as [->|Hj], (decide (k = i)) as [->|Hk];
          [done| | |].
        -- rewrite lookup_insert_eq, lookup_insert_ne by done.
           intros [= <-] Hu Heq. simpl in Heq. by eapply Huniq.
        -- rewrite lookup_insert_eq, lookup_insert_ne by done.
           intros Ht [= <-] Heq. simpl in Heq. by eapply Huniq.
        -- rewrite !lookup_insert_ne by done. apply Huniq.
Qed.

Lemma close_ok_reachable w i :
  reachable w → i ∈ dom (objs w) → outcome (close i w) = Ok tt.
Proof.
  intros Hinv%reachable_inv Hdom.
  destruct (lifecycle_inv_session w i Hinv Hdom) as (s & Hs).
  destruct (closed s) eqn:Hc.
  - by rewrite (close_noop_closed _ _ _ Hs Hc).
  - destruct Hinv as (_ & _ & _ & Hopen).
    rewrite (close_open _ _ _ Hs Hc). simpl.
    rewrite bool_decide_eq_true_2; [done|].
    apply (Hopen i s); [|done]. by apply session_of_Some.
Qed.

Lemma close_None w self :
  session_of w self = None → close self w = (Ok tt, w).
Proof. intros H. unfold_m. by rewrite H. Qed.

Lemma registered_is_open w i :
  reachable w → i ∈ active w →
  ∃ s, session_of w i = Some s ∧ closed s = false.
Proof.
  intros Hw Hi. destruct (reachable_inv w Hw) as (_ & Hreg & _).
  destruct (sessions_inv_reachable w Hw) as (Hop & _).
  destruct (Hreg i Hi) as (s & Hs). exists s. split.
  - by apply session_of_Some.
  - by eapply Hop.
Qed.

Lemma open_is_registered w i s :
  reachable w → session_of w i = Some s → closed s = false → i ∈ active w.
Proof.
  intros Hw Hs%session_of_Some Hc.
  destruct (reachable_inv w Hw) as (_ & _ & _ & Hopen). by eapply Hopen.
Qed.

(** In every world reached by constructor, [connect()] and [close()] calls
    the registry holds exactly the instances whose session is open. *)
Theorem registry_holds_open_instances (w : World) (i : nat) :
  reachable w →
  i ∈ active w ↔ (∃ s, session_of w i = Some s ∧ closed s = false).
Proof.
  intros Hw. split.
  - by apply registered_is_open.
  - intros (s & Hs & Hc). by apply (open_is_registered w i s).
Qed.

Lemma registry_holds_open_instances_witness :
  (1%nat ∈ active lifecycle_sample
   ↔ (∃ s, session_of lifecycle_sample 1 = Some s ∧ closed s = false))
  ∧ session_of lifecycle_sample 0 = Some {| sid := 0; closed := true |}
  ∧ active lifecycle_sample = [1%nat].
Proof.
  split; [|split; reflexivity].
  apply registry_holds_open_instances, lifecycle_sample_reachable.
Defined.

(** In every reachable world two different instances never hold the same
    session, and every session held was created by an earlier
    [ClientSession()] call. *)
Theorem sessions_never_shared (w : World) (i j : nat) (s t : ClientSession) :
  reachable w →
  session_of w i = Some s → session_of w j = Some t →
  (i ≠ j → sid s ≠ sid t) ∧ (sid s < created w)%nat.
Proof.
  intros (_ & Hlt & Huniq)%sessions_inv_reachable
    Hs%session_of_Some Ht%session_of_Some.
  split; [|by eapply Hlt].
  intros Hne Heq. apply Hne. by eapply Huniq.
Qed.

Lemma sessions_never_shared_witness :
  session_of lifecycle_sample 0 = Some {| sid := 0; closed := true |}
  ∧ session_of lifecycle_sample 1 = Some {| sid := 1; closed := false |}
  ∧ sid {| sid := 0; closed := true |} ≠ sid {| sid := 1; closed := false |}
  ∧ created lifecycle_sample = 2%nat.
Proof.
  split; [reflexivity|]. split; [reflexivity|]. split; [|reflexivity].
  apply (sessions_never_shared lifecycle_sample 0 1
           {| sid := 0; closed := true |} {| sid := 1; closed := false |}
           lifecycle_sample_reachable); [reflexivity|reflexivity|lia].
Defined.

Lemma reachable_close_ok_witness :
  (1%nat ∈ dom (objs lifecycle_sample))
  ∧ outcome (close 1 lifecycle_sample) = Ok tt.
Proof.
  assert (Hdom : 1%nat ∈ dom (objs lifecycle_sample)).
  { apply elem_of_dom. vm_compute. eauto. }
  split; [exact Hdom|].
  exact (reachable_close_ok lifecycle_sample 1 lifecycle_sample_reachable Hdom).
Defined.

(** [close()] on a registered instance of a reachable world returns
    normally, closes the instance's session, which stays the same object,
    and takes the instance out of the registry; no session is created. *)
Theorem close_unregisters (w : World) (i : nat) :
  reachable w → i ∈ active w →
  outcome (close i w) = Ok tt
  ∧ (i ∉ active (final (close i w)))
  ∧ active (final (close i w)) = list_remove i (active w)
  ∧ (∃ s, session_of w i = Some s
          ∧ session_of (final (close i w)) i
            = Some {| sid := sid s; closed := true |})
  ∧ created (final (close i w)) = created w.
Proof.
  intros Hw Hi.
  destruct (registered_is_open w i Hw Hi) as (s & Hs & Hc).
  destruct (reachable_inv w Hw) as (Hnd & _).
  rewrite (close_open _ _ _ Hs Hc). simpl.
  rewrite bool_decide_eq_true_2 by done. unfold outcome, final; simpl.
  repeat split.
  - by apply list_remove_not_in.
  - exists s. split; [done|]. apply session_of_set_objs_insert.
Qed.

Lemma close_unregisters_witness :
  1%nat ∈ active lifecycle_sample
  ∧ outcome (close 1 lifecycle_sample) = Ok tt
  ∧ active (final (close 1 lifecycle_sample)) = [].
Proof.
  assert (Hin : 1%nat ∈ active lifecycle_sample) by apply list_elem_of_here.
  split; [exact Hin|].
  destruct (close_unregisters lifecycle_sample 1 lifecycle_sample_reachable Hin)
    as (Hout & _ & Hact & _).
  split; [exact Hout|]. rewrite Hact. reflexivity.
Defined.



Lemma close_reachable w i :
  reachable w → i ∈ dom (objs w) →
  outcome (close i w) = Ok tt
  ∧ reachable (final (close i w))
  ∧ active (final (close i w)) = list_remove i (active w)
  ∧ dom (objs (final (close i w))) = dom (objs w)
  ∧ created (final (close i w)) = created w.
Proof.
  intros Hw Hdom.
  split; [by apply close_ok_reachable|].
  split; [by apply (reachable_step w), step_close|].
  destruct (lifecycle_inv_session w i (reachable_inv w Hw) Hdom) as (s & Hs).
  destruct (closed s) eqn:Hc.
  - rewrite (close_noop_closed _ _ _ Hs Hc). unfold final; simpl.
    split; [|done]. symmetry. apply list_remove_absent.
    intros Hi. destruct (registered_is_open w i Hw Hi) as (s' & Hs' & Hc').
    congruence.
  - rewrite (close_open _ _ _ Hs Hc). simpl.
    destruct (bool_decide (i ∈ active w)) eqn:Hb; unfold final; simpl.
    + split; [done|]. split; [|done].
      apply set_eq. intros k. rewrite !elem_of_dom.
      destruct (decide (k = i)) as [->|Hne].
      * rewrite lookup_insert_eq. split; [by intros _; apply elem_of_dom|eauto].
      * by rewrite lookup_insert_ne.
    + exfalso. apply bool_decide_eq_false in Hb. apply Hb.
      by apply (open_is_registered w i s).
Qed.

(** Closing a registered instance and connecting it again gives it a
    session that did not exist before, open, and registers it once more,
    now at the end of the registry. *)
Theorem reconnect_after_close (w : World) (i : nat) :
  reachable w → i ∈ active w →
  let w2 := final (connect i (final (close i w))) in
  session_of w2 i = Some {| sid := created w; closed := false |}
  ∧ (∀ s, session_of w i = Some s → sid s ≠ created w)
  ∧ created w2 = S (created w)
  ∧ active w2 = (list_remove i (active w) ++ [i])%list
  ∧ NoDup (active w2).
Proof.
  intros Hw Hi w2.
  destruct (registered_is_open w i Hw Hi) as (s & Hs & Hc).
  assert (Hdom : i ∈ dom (objs w)).
  { apply elem_of_dom. apply session_of_Some in Hs. by rewrite Hs. }
  destruct (close_reachable w i Hw Hdom) as (_ & Hw1 & Hact & Hdom1 & Hcr).
  assert (Hs' : session_of (final (close i w)) i
                = Some {| sid := sid s; closed := true |}).
  { rewrite (close_open _ _ _ Hs Hc). simpl.
    rewrite bool_decide_eq_true_2 by done. unfold final; simpl.
    apply session_of_set_objs_insert. }
  assert (Hnot : i ∉ active (final (close i w))).
  { rewrite Hact. apply list_remove_not_in.
    by destruct (reachable_inv w Hw) as (Hnd & _). }
  assert (Hw2 : reachable w2).
  { apply (reachable_step (final (close i w))); [done|]. apply step_connect.
    by rewrite Hdom1. }
  assert (Heq : w2 = set_active (λ a, (a ++ [i])%list)
            (set_objs <[i := Some {| sid := created w; closed := false |}]>
               (set_created S (final (close i w))))).
  { subst w2. rewrite (connect_closed _ _ _ Hs' eq_refl). unfold final at 1.
    simpl. rewrite bool_decide_eq_true_2 by done. by rewrite Hcr. }
  repeat split.
  - rewrite Heq. unfold session_of; simpl. by rewrite lookup_insert_eq.
  - intros s0 Hs0%session_of_Some.
    destruct (sessions_inv_reachable w Hw) as (_ & Hlt & _).
    apply Hlt in Hs0. lia.
  - rewrite Heq. simpl. by rewrite Hcr.
  - rewrite Heq. simpl. by rewrite Hact.
  - by destruct (reachable_inv w2 Hw2) as (Hnd & _).
Qed.

Lemma reconnect_after_close_witness :
  1%nat ∈ active lifecycle_sample
  ∧ session_of lifecycle_sample 1 = Some {| sid := 1; closed := false |}
  ∧ session_of (final (connect 1 (final (close 1 lifecycle_sample)))) 1
    = Some {| sid := 2; closed := false |}.
Proof.
  assert (Hin : 1%nat ∈ active lifecycle_sample) by apply list_elem_of_here.
  split; [exact Hin|]. split; [reflexivity|].
  exact (proj1 (reconnect_after_close lifecycle_sample 1
                  lifecycle_sample_reachable Hin)).
Defined.

(** In a reachable world, where no two instances hold the same session,
    the lifecycle calls on one instance leave every other instance alone:
    its session and its place in the registry are what they were. *)
Theorem lifecycle_calls_are_local (w : World) (i j : nat) :
  reachable w →
  j ≠ i →
  (session_of (final (connect i w)) j = session_of w j
   ∧ (j ∈ active (final (connect i w)) ↔ j ∈ active w))
  ∧ (session_of (final (close i w)) j = session_of w j
     ∧ (j ∈ active (final (close i w)) ↔ j ∈ active w))
  ∧ (j ∈ dom (objs w) →
     session_of (final (__init__ w)) j = session_of w j
     ∧ (j ∈ active (final (__init__ w)) ↔ j ∈ active w)).
Proof.
  intros _ Hne.
  assert (Happ : ∀ a : list nat, j ∈ (a ++ [i])%list ↔ j ∈ a).
  { intros a. rewrite elem_of_app, list_elem_of_singleton.
    split; [intros [?|?]; [done|by subst]|by left]. }
  assert (Hins : ∀ x (o : gmap nat (option ClientSession)),
            default None (<[i := x]> o !! j) = default None (o !! j)).
  { intros x o. by rewrite lookup_insert_ne. }
  split; [|split].
  - destruct (session_of w i) as [s|] eqn:Hs.
    + destruct (closed s) eqn:Hc.
      * rewrite (connect_closed _ _ _ Hs Hc). unfold final; simpl.
        case_bool_decide; unfold session_of; simpl; rewrite Hins;
          [by rewrite Happ|done].
      * rewrite (connect_open _ _ _ Hs Hc). unfold final; simpl.
        case_bool_decide; unfold session_of; simpl; [by rewrite Happ|done].
    + rewrite (connect_None _ _ Hs). unfold final, session_of; simpl.
      by rewrite Hins, Happ.
  - destruct (session_of w i) as [s|] eqn:Hs.
    + destruct (closed s) eqn:Hc.
      * by rewrite (close_noop_closed _ _ _ Hs Hc).
      * rewrite (close_open _ _ _ Hs Hc). simpl.
        case_bool_decide; unfold final, session_of; simpl; rewrite Hins;
          [|done].
        split; [done|]. split; [apply list_remove_subseteq|].
        by apply list_remove_other.
    + rewrite (close_None w i Hs). done.
  - intros Hdom. rewrite init_spec. unfold final, session_of; simpl.
    assert (Hj : j ≠ fresh (dom (objs w))).
    { intros ->. by apply (is_fresh (dom (objs w))). }
    rewrite !lookup_insert_ne by done. split; [done|].
    rewrite elem_of_app, list_elem_of_singleton.
    split; [intros [?|?]; [done|by subst]|by left].
Qed.

Lemma lifecycle_calls_are_local_witness :
  session_of (final (close 1 lifecycle_sample)) 0 = session_of lifecycle_sample 0
  ∧ session_of (final (connect 0 lifecycle_sample)) 1 = session_of lifecycle_sample 1.
Proof.
  split.
  - exact (proj1 (proj1 (proj2
             (lifecycle_calls_are_local lifecycle_sample 1 0
                lifecycle_sample_reachable (O_S 0))))).
  - exact (proj1 (proj1
             (lifecycle_calls_are_local lifecycle_sample 0 1
                lifecycle_sample_reachable (not_eq_sym (O_S 0))))).
Defined.

(** *** Closing every instance *)

Lemma close_each_reachable l : ∀ w,
  reachable w → (∀ i, i ∈ l → i ∈ dom (objs w)) →
  outcome (close_each l w) = Ok tt
  ∧ reachable (final (close_each l w))
  ∧ (∀ x, x ∈ active (final (close_each l w)) → x ∈ active w ∧ x ∉ l)
  ∧ created (final (close_each l w)) = created w.
Proof.
  induction l as [|i l IH]; intros w Hw Hl; simpl.
  - unfold outcome, final; simpl. repeat split; [done|done|apply not_elem_of_nil].
  - destruct (close_reachable w i Hw) as (Hout & Hw1 & Hact & Hdom & Hcr).
    { apply Hl, list_elem_of_here. }
    unfold mbind, M_bind. destruct (close i w) as [o w1] eqn:Hclose.
    unfold outcome, final in Hout, Hw1, Hact, Hdom, Hcr; simpl in *. subst o.
    destruct (IH w1 Hw1) as (Hout' & Hw2 & Hsub & Hcr').
    { intros k Hk. rewrite Hdom. by apply Hl, list_elem_of_further. }
    split; [done|]. split; [done|]. split; [|congruence].
    intros x Hx. destruct (Hsub x Hx) as [Hx1 Hx2]. rewrite Hact in Hx1.
    split; [by apply (list_remove_subseteq i)|].
    intros [->|Hxl]%elem_of_cons; [|done].
    revert Hx1. apply list_remove_not_in.
    by destruct (reachable_inv w Hw) as (Hnd & _).
Qed.

(** Closing, one call after the other and in any order, a list of existing
    instances that covers the registry never fails, leaves the registry
    empty and no session open, and creates no session. *)
Theorem close_each_empties_registry (w : World) (l : list nat) :
  reachable w →
  (∀ i, i ∈ active w → i ∈ l) →
  (∀ i, i ∈ l → i ∈ dom (objs w)) →
  outcome (close_each l w) = Ok tt
  ∧ active (final (close_each l w)) = []
  ∧ (∀ i s, session_of (final (close_each l w)) i = Some s → closed s = true)
  ∧ created (final (close_each l w)) = created w.
Proof.
  intros Hw Hcover Hl.
  destruct (close_each_reachable l w Hw Hl) as (Hout & Hw' & Hsub & Hcr).
  assert (Hnil : active (final (close_each l w)) = []).
  { destruct (active (final (close_each l w))) as [|x a]; [done|].
    destruct (Hsub x) as [Hx1 Hx2]; [apply list_elem_of_here|].
    by apply Hcover in Hx1. }
  repeat split; [done|done| |done].
  intros i s Hs. destruct (closed s) eqn:Hc; [done|].
  assert (Hi : i ∈ active (final (close_each l w))).
  { by apply (open_is_registered _ i s). }
  rewrite Hnil in Hi. by apply not_elem_of_nil in Hi.
Qed.

Lemma two_instances_reachable : reachable two_instances.
Proof.
  unfold two_instances.
  apply (reachable_step (final (__init__ world0))); [|apply step_init].
  apply (reachable_step world0); [apply rtc_refl|apply step_init].
Qed.

Lemma close_each_empties_registry_witness :
  active two_instances = [0%nat; 1%nat]
  ∧ outcome (close_each [1%nat; 0%nat] two_instances) = Ok tt
  ∧ active (final (close_each [1%nat; 0%nat] two_instances)) = [].
Proof.
  split; [reflexivity|].
  destruct (close_each_empties_registry two_instances [1%nat; 0%nat]
              two_instances_reachable) as (Hout & Hact & _).
  - intros i [->|[->|Hi]%elem_of_cons]%elem_of_cons.
    + apply list_elem_of_further, list_elem_of_here.
    + apply list_elem_of_here.
    + by apply not_elem_of_nil in Hi.
  - intros i [->|[->|Hi]%elem_of_cons]%elem_of_cons.
    + apply elem_of_dom. vm_compute. eauto.
    + apply elem_of_dom. vm_compute. eauto.
    + by apply not_elem_of_nil in Hi.
  - split; [exact Hout|exact Hact].
Defined.

(** *** Closing again, and closing in another order *)

(** A second [close()] right after a first one returns normally and
    changes nothing, whatever the first one did, its failure on an
    unregistered instance included. *)
Theorem close_twice_idempotent (w : World) (self : nat) :
  close self (final (close self w)) = (Ok tt, final (close self w)).
Proof.
  destruct (session_of w self) as [s|] eqn:Hs.
  - destruct (closed s) eqn:Hc.
    + rewrite (close_noop_closed _ _ _ Hs Hc). unfold final; simpl.
      apply (close_noop_closed _ _ _ Hs Hc).
    + rewrite (close_open _ _ _ Hs Hc). simpl.
      destruct (bool_decide (self ∈ active w)); unfold final; simpl;
        apply (close_noop_closed _ _ {| sid := sid s; closed := true |});
        solve [apply session_of_set_objs_insert | done].
  - rewrite (close_None _ _ Hs). unfold final; simpl.
    apply (close_None _ _ Hs).
Qed.

Lemma list_remove_comm x y (l : list nat) :
  list_remove x (list_remove y l) = list_remove y (list_remove x l).
Proof.
  destruct (decide (x = y)) as [->|Hxy]; [done|].
  induction l as [|z l IH]; simpl; [done|].
  destruct (decide (z = y)) as [Hy|Hy], (decide (z = x)) as [Hx|Hx]; simpl.
  - congruence.
  - by rewrite decide_True.
  - by rewrite decide_True.
  - rewrite !decide_False by done. by rewrite IH.
Qed.

Lemma close_final_reachable w i :
  reachable w → i ∈ dom (objs w) →
  close i w =
    (Ok tt,
     match session_of w i with
     | Some s =>
         if closed s then w
         else set_active (list_remove i)
                (set_objs <[i := Some {| sid := sid s; closed := true |}]> w)
     | None => w
     end).
Proof.
  intros Hw Hdom.
  destruct (lifecycle_inv_session w i (reachable_inv w Hw) Hdom) as (s & Hs).
  rewrite Hs. destruct (closed s) eqn:Hc.
  - apply (close_noop_closed _ _ _ Hs Hc).
  - rewrite (close_open _ _ _ Hs Hc). simpl.
    by rewrite bool_decide_eq_true_2 by (by apply (open_is_registered w i s)).
Qed.

Lemma close_other_session w i j :
  j ≠ i → session_of (final (close i w)) j = session_of w j.
Proof.
  intros Hne. destruct (session_of w i) as [s|] eqn:Hs.
  - destruct (closed s) eqn:Hc.
    + by rewrite (close_noop_closed _ _ _ Hs Hc).
    + rewrite (close_open _ _ _ Hs Hc). simpl.
      destruct (bool_decide (i ∈ active w)); unfold final, session_of; simpl;
        by rewrite lookup_insert_ne.
  - by rewrite (close_None _ _ Hs).
Qed.

Lemma close_ok_final w i :
  reachable w → i ∈ dom (objs w) → close i w = (Ok tt, final (close i w)).
Proof. intros Hw Hi. by rewrite (close_final_reachable w i Hw Hi). Qed.

(** In a reachable world the order in which two different instances are
    closed does not matter: both orders succeed and end in the same
    world. *)
Theorem close_order_irrelevant (w : World) (i j : nat) :
  reachable w → i ≠ j → i ∈ dom (objs w) → j ∈ dom (objs w) →
  close_each [i; j] w = close_each [j; i] w
  ∧ outcome (close_each [i; j] w) = Ok tt.
Proof.
  intros Hw Hne Hi Hj.
  destruct (close_reachable w i Hw Hi) as (_ & Hwi & _ & Hdi & _).
  destruct (close_reachable w j Hw Hj) as (_ & Hwj & _ & Hdj & _).
  assert (Hij : close_each [i; j] w =
                  (Ok tt, final (close j (final (close i w))))).
  { simpl. unfold mbind, M_bind. rewrite (close_ok_final w i Hw Hi).
    rewrite (close_ok_final (final (close i w)) j Hwi) by (by rewrite Hdi).
    done. }
  assert (Hji : close_each [j; i] w =
                  (Ok tt, final (close i (final (close j w))))).
  { simpl. unfold mbind, M_bind. rewrite (close_ok_final w j Hw Hj).
    rewrite (close_ok_final (final (close j w)) i Hwj) by (by rewrite Hdj).
    done. }
  rewrite Hij, Hji. split; [|done]. f_equal.
  destruct (lifecycle_inv_session w i (reachable_inv w Hw) Hi) as (s & Hs).
  destruct (lifecycle_inv_session w j (reachable_inv w Hw) Hj) as (t & Ht).
  pose proof (close_other_session w j i Hne) as Hsi. rewrite Hs in Hsi.
  pose proof (close_other_session w i j (not_eq_sym Hne)) as Htj.
  rewrite Ht in Htj.
  destruct (closed s) eqn:Hcs.
  { rewrite (close_noop_closed _ _ _ Hsi Hcs).
    by rewrite (close_noop_closed _ _ _ Hs Hcs). }
  destruct (closed t) eqn:Hct.
  { rewrite (close_noop_closed _ _ _ Htj Hct).
    by rewrite (close_noop_closed _ _ _ Ht Hct). }
  assert (Hai : i ∈ active w) by (by apply (open_is_registered w i s)).
  assert (Haj : j ∈ active w) by (by apply (open_is_registered w j t)).
  rewrite (close_open _ _ _ Htj Hct), (close_open _ _ _ Hsi Hcs).
  rewrite (close_open _ _ _ Hs Hcs), (close_open _ _ _ Ht Hct). simpl.
  rewrite !(bool_decide_eq_true_2 (i ∈ active w)) by done.
  rewrite !(bool_decide_eq_true_2 (j ∈ active w)) by done.
  unfold final; simpl.
  rewrite !bool_decide_eq_true_2 by (by apply list_remove_other).
  unfold set_active, set_objs; simpl. f_equal.
  - apply map_eq. intros k.
    destruct (decide (k = i)) as [->|Hki].
    { by rewrite lookup_insert_ne, !lookup_insert_eq by done. }
    destruct (decide (k = j)) as [->|Hkj].
    { by rewrite lookup_insert_eq, lookup_insert_ne, lookup_insert_eq by done. }
    by rewrite !lookup_insert_ne by done.
  - apply list_remove_comm.
Qed.

Lemma close_order_irrelevant_witness :
  close_each [0%nat; 1%nat] two_instances = close_each [1%nat; 0%nat] two_instances
  ∧ outcome (close_each [0%nat; 1%nat] two_instances) = Ok tt.
Proof.
  apply (close_order_irrelevant two_instances 0 1 two_instances_reachable).
  - lia.
  - apply elem_of_dom. vm_compute. eauto.
  - apply elem_of_dom. vm_compute. eauto.
Defined.

(** * Further properties of the endpoint methods *)

Section ClientExtras.

Context {remote : Remote}.

Lemma fetch_final v self url kw w :
  final (fetch v self url kw w)
  = set_log (λ l, (l ++ new_events (fetch v self url kw) w)%list) w.
Proof.
  unfold new_events, fetch.
  destruct (session_of w self) as [s|]; cycle 1.
  { unfold final; simpl. rewrite drop_all. unfold set_log.
    rewrite app_nil_r. by destruct w. }
  destruct (bool_decide (is_Some (kw !! "ssl"))).
  { unfold final; simpl. rewrite drop_all. unfold set_log.
    rewrite app_nil_r. by destruct w. }
  destruct (transport s _) as [r|e].
  - destruct (is_2xx (status r)).
    + rewrite parse_response_spec. unfold final, set_log; simpl.
      by rewrite <- app_assoc, drop_app_length.
    + unfold final, set_log; simpl. by rewrite drop_app_length.
  - unfold final, set_log; simpl. by rewrite drop_app_length.
Qed.

(** An endpoint call changes nothing in the world but the log, which it
    extends: no instance, no session and no registry entry is created,
    closed or dropped. *)
Theorem endpoint_only_logs (self : nat) (c : endpoint_call) (w : World) :
  objs (final (call_endpoint self c w)) = objs w
  ∧ active (final (call_endpoint self c w)) = active w
  ∧ created (final (call_endpoint self c w)) = created w
  ∧ log (final (call_endpoint self c w))
    = (log w ++ new_events (call_endpoint self c) w)%list.
Proof.
  rewrite new_events_endpoint, call_endpoint_fetch.
  destruct (endpoint_request c) as [[[v url] kw]|].
  - rewrite endpoint_finish_final, fetch_final. done.
  - unfold final; simpl. by rewrite app_nil_r.
Qed.

(** Whatever an endpoint call sends goes through the instance's own
    session, with certificate checks switched off, and with the verb and the
    URL of that endpoint. *)
Theorem request_target (self : nat) (c : endpoint_call) (w : World)
    (s : ClientSession) (req : Request) :
  EvSend s req ∈ new_events (call_endpoint self c) w →
  session_of w self = Some s
  ∧ req_ssl req = false
  ∧ req_verb req =
      match c with
      | Compilers _ | GetPermlink _ _ | GetTemplate _ _ | GetUser _ _ => GET
      | _ => POST
      end
  ∧ req_url req =
      match c with
      | Compilers _ => "https://wandbox.org/api/list.json"
      | GetPermlink link _ => "https://wandbox.org/api/permlink/" ++ link
      | GetTemplate name _ => "https://wandbox.org/api/template/" ++ name
      | GetUser _ _ => "https://wandbox.org/api/url.json"
      | Compile _ _ _ _ _ _ _ _ _ => "https://wandbox.org/api/compile.json"
      | CompileNd _ _ _ _ _ _ _ _ => "https://wandbox.org/api/compile.ndjson"
      | PostPermlink _ _ _ _ _ _ _ _ _ => "https://wandbox.org/api/permlink"
      end.
Proof.
  rewrite new_events_endpoint.
  destruct (endpoint_request c) as [[[v url] kw]|] eqn:Hreq;
    [|by intros ?%not_elem_of_nil].
  intros [Hs ->]%send_in_fetch. split; [done|]. split; [done|]. simpl.
  destruct c; unfold endpoint_request in Hreq;
    match type of Hreq with
    | context [kw_free ?n ?k] => destruct (kw_free n k); [|done]
    end;
    by injection Hreq as <- <- <-.
Qed.

(** An endpoint call hands the transport at most one request and asks for
    at most one decoding, in this order: nothing at all, or one request
    alone, or one request followed by the decoding of the response that
    request received, with the decoder its content type names. *)
Theorem endpoint_one_request (self : nat) (c : endpoint_call) (w : World) :
  new_events (call_endpoint self c) w = []
  ∨ (∃ s req, new_events (call_endpoint self c) w = [EvSend s req])
  ∨ (∃ s req r,
       new_events (call_endpoint self c) w
       = [EvSend s req; EvDecode (chosen_decoder r) r]
       ∧ transport s req = Ok r).
Proof.
  rewrite new_events_endpoint.
  destruct (endpoint_request c) as [[[v url] kw]|]; [|by left].
  destruct (fetch_cases v self url kw w)
    as [[Hev _] | (s & _ & [(e & Ht & Hev & _)
                           | [(r & Ht & H2 & Hev & _)
                             | (r & Ht & H2 & Hev & _)]])].
  - by left.
  - right; left. by eexists _, _.
  - right; left. by eexists _, _.
  - right; right. by eexists _, _, r.
Qed.


(** When the transport fails instead of answering, the endpoint method
    fails with the transport's error; nothing is decoded and nothing is
    sent again. *)
Theorem transport_failure_propagates (self : nat) (c : endpoint_call)
    (w : World) (s : ClientSession) (req : Request) (e : exn) :
  EvSend s req ∈ new_events (call_endpoint self c) w →
  transport s req = Raise e →
  outcome (call_endpoint self c w) = Raise e
  ∧ new_events (call_endpoint self c) w = [EvSend s req].
Proof.
  rewrite new_events_endpoint, call_endpoint_fetch.
  destruct (endpoint_request c) as [[[v url] kw]|];
    [|by intros ?%not_elem_of_nil].
  intros Hin Ht.
  pose proof (send_in_fetch v self url kw w s req Hin) as [_ ->].
  destruct (fetch_cases v self url kw w)
    as [[Hev _] | (s0 & Hs0 & [(e0 & Ht0 & Hev & Hout)
                              | [(r0 & Ht0 & H20 & Hev & _)
                                | (r0 & Ht0 & H20 & Hev & _)]])];
    rewrite Hev in Hin.
  - by apply not_elem_of_nil in Hin.
  - apply list_elem_of_singleton in Hin. injection Hin as ->.
    assert (e0 = e) as -> by congruence. split; [|done].
    unfold outcome in *. destruct (fetch v self url kw w) as [o w'].
    simpl in Hout. subst o. by rewrite endpoint_finish_raise.
  - apply list_elem_of_singleton in Hin. injection Hin as ->. congruence.
  - apply elem_of_cons in Hin as [Hin | Hin];
      [|apply list_elem_of_singleton in Hin; discriminate].
    injection Hin as ->. congruence.
Qed.

Lemma endpoint_request_kwargs c v url kw k :
  endpoint_request c = Some (v, url, kw) →
  k ≠ "headers" → k ≠ "data" → k ≠ "params" →
  kw !! k = call_kwargs c !! k.
Proof.
  intros Hreq Hh Hd Hp.
  destruct c; unfold endpoint_request in Hreq;
    match type of Hreq with
    | context [kw_free ?n ?k] => destruct (kw_free n k); [|done]
    end;
    injection Hreq as <- <- <-; simpl;
    by rewrite ?lookup_insert_ne by done.
Qed.

Lemma endpoint_request_url c :
  is_Some (call_kwargs c !! "url") → endpoint_request c = None.
Proof.
  intros Hurl.
  assert (Hb : ∀ kw : gmap string value,
            kw !! "url" = call_kwargs c !! "url" →
            negb (bool_decide (is_Some (kw !! "url"))) = false).
  { intros kw ->. by rewrite bool_decide_eq_true_2. }
  destruct c; unfold endpoint_request, kw_free, forallb; simpl in *;
    rewrite Hb; try done; by rewrite ?lookup_insert_ne by done.
Qed.

(** The caller cannot pass [url], and on a connected instance cannot pass
    [ssl]: both are set by the client, Python refuses the keyword given
    twice, and the call fails with [TypeError] before anything is sent. *)
Theorem reserved_keywords_rejected (self : nat) (c : endpoint_call) (w : World) :
  is_Some (call_kwargs c !! "url")
  ∨ (is_Some (call_kwargs c !! "ssl") ∧ is_Some (session_of w self)) →
  call_endpoint self c w = (Raise TypeError, w).
Proof.
  intros H. rewrite call_endpoint_fetch.
  destruct (endpoint_request c) as [[[v url] kw]|] eqn:Hreq; [|done].
  destruct H as [Hurl | [Hssl [s Hs]]].
  { apply endpoint_request_url in Hurl. congruence. }
  rewrite <- (endpoint_request_kwargs c v url kw "ssl" Hreq) in Hssl by done.
  unfold fetch. rewrite Hs. rewrite bool_decide_eq_true_2 by done.
  apply endpoint_finish_raise.
Qed.

(** Every keyword argument of the caller other than [headers], [data] and
    [params] reaches the transport as it was given. *)
Theorem kwargs_pass_through (self : nat) (c : endpoint_call) (w : World)
    (s : ClientSession) (req : Request) (k : string) :
  EvSend s req ∈ new_events (call_endpoint self c) w →
  k ≠ "headers" → k ≠ "data" → k ≠ "params" →
  req_kwargs req !! k = call_kwargs c !! k.
Proof.
  intros (v & url & kw & Hreq & ->)%send_in_endpoint Hh Hd Hp. simpl.
  by apply (endpoint_request_kwargs c v url).
Qed.

(** On an instance that has no session the endpoint methods fail without
    sending anything: with [AttributeError], or with [TypeError] when the
    keyword arguments clash. *)
Theorem no_session_no_request (self : nat) (c : endpoint_call) (w : World) :
  session_of w self = None →
  call_endpoint self c w = (Raise AttributeError, w)
  ∨ call_endpoint self c w = (Raise TypeError, w).
Proof.
  intros Hs. rewrite call_endpoint_fetch.
  destruct (endpoint_request c) as [[[v url] kw]|]; [|by right].
  left. unfold fetch. rewrite Hs. apply endpoint_finish_raise.
Qed.

Lemma insert_twice_delete (m : gmap string value) a b x y :
  a ≠ b →
  <[a := x]> (<[b := y]> (delete a (delete b m))) = <[a := x]> (<[b := y]> m).
Proof.
  intros Hab. apply map_eq. intros k.
  destruct (decide (k = a)) as [->|Ha]; [by rewrite !lookup_insert_eq|].
  rewrite !(lookup_insert_ne _ a) by done.
  destruct (decide (k = b)) as [->|Hb]; [by rewrite !lookup_insert_eq|].
  rewrite !(lookup_insert_ne _ b) by done.
  by rewrite !lookup_delete_ne by done.
Qed.

(** [compile] and [compile_nd] put their own [data] and [headers] over
    whatever the caller passed under these names, and [post_permlink] its
    own [params]: the call behaves as if the caller had not passed them. *)
Theorem own_payload_replaces_callers (self : nat)
    (code compiler codes compiler_option_raw options results
     runtime_option_raw save stdin : value) (kwargs : gmap string value)
    (w : World) :
  compile self code compiler codes compiler_option_raw options
    runtime_option_raw save stdin kwargs w
  = compile self code compiler codes compiler_option_raw options
      runtime_option_raw save stdin (delete "headers" (delete "data" kwargs)) w
  ∧ compile_nd self code compiler codes compiler_option_raw options
      runtime_option_raw stdin kwargs w
    = compile_nd self code compiler codes compiler_option_raw options
        runtime_option_raw stdin (delete "headers" (delete "data" kwargs)) w
  ∧ post_permlink self code compiler codes compiler_option_raw options results
      runtime_option_raw stdin kwargs w
    = post_permlink self code compiler codes compiler_option_raw options
        results runtime_option_raw stdin (delete "params" kwargs) w.
Proof.
  unfold compile, compile_nd, post_permlink.
  rewrite !insert_twice_delete by done.
  rewrite (insert_delete_eq kwargs). done.
Qed.

(** [compilers] refuses a [headers] argument of the caller, and [get_user]
    a [data] argument: each passes its own under that name, the keyword is
    given twice, and the call fails with [TypeError] before anything is
    sent. *)
Theorem own_keyword_collides (self : nat) (session : value)
    (kwargs : gmap string value) (w : World) :
  (is_Some (kwargs !! "headers") →
     compilers self kwargs w = (Raise TypeError, w))
  ∧ (is_Some (kwargs !! "data") →
     get_user self session kwargs w = (Raise TypeError, w)).
Proof.
  split; intros Hk.
  - unfold compilers. unfold mbind at 1. unfold M_bind.
    rewrite no_duplicate_kw_free. unfold kw_free, forallb.
    rewrite (bool_decide_eq_true_2 _ Hk). simpl. by rewrite andb_false_r.
  - unfold get_user. unfold mbind at 1. unfold M_bind.
    rewrite no_duplicate_kw_free. unfold kw_free, forallb.
    rewrite (bool_decide_eq_true_2 _ Hk). simpl. by rewrite andb_false_r.
Qed.

(** The request of [get_user] carries as [data] the JSON text of a
    one-entry object that binds [session] to the token. *)
Theorem get_user_body (self : nat) (session : value)
    (kwargs : gmap string value) (w : World) (s : ClientSession)
    (req : Request) :
  EvSend s req ∈ new_events (get_user self session kwargs) w →
  req_kwargs req !! "data"
  = Some (VStr ("{" ++ (dumps_str "session" ++ ": " ++ dumps session) ++ "}")).
Proof.
  intros Hin.
  apply (send_in_endpoint self (GetUser session kwargs))
    in Hin as (v & url & kw & Hreq & ->).
  unfold endpoint_request in Hreq.
  match type of Hreq with
  | context [kw_free ?n ?k] => destruct (kw_free n k); [|done]
  end.
  injection Hreq as <- <- <-. simpl. by rewrite lookup_insert_eq.
Qed.

End ClientExtras.

Lemma permlink_request_sent :
  EvSend first_session permlink_request
    ∈ new_events (call_endpoint (remote := sample_remote ok_empty) 0
                    (GetPermlink "abc" {["timeout" := VInt 5]})) open_world.
Proof. vm_compute. apply list_elem_of_here. Qed.


Lemma list_request_unanswered :
  EvSend first_session list_request
    ∈ new_events (call_endpoint (remote := unreachable_remote) 0
                    (Compilers ∅)) open_world.
Proof. vm_compute. apply list_elem_of_here. Qed.

Lemma request_target_witness :
  session_of open_world 0 = Some first_session
  ∧ req_ssl permlink_request = false
  ∧ req_verb permlink_request = GET
  ∧ req_url permlink_request = "https://wandbox.org/api/permlink/abc".
Proof.
  exact (request_target (remote := sample_remote ok_empty) 0
           (GetPermlink "abc" {["timeout" := VInt 5]}) open_world
           first_session permlink_request permlink_request_sent).
Defined.


Lemma transport_failure_propagates_witness :
  outcome (call_endpoint (remote := unreachable_remote) 0 (Compilers ∅)
             open_world) = Raise ConnectionError
  ∧ new_events (call_endpoint (remote := unreachable_remote) 0 (Compilers ∅))
      open_world
    = [EvSend first_session list_request].
Proof.
  apply (transport_failure_propagates (remote := unreachable_remote) 0
           (Compilers ∅) open_world first_session list_request ConnectionError
           list_request_unanswered); reflexivity.
Defined.

Lemma reserved_keywords_rejected_witness :
  call_endpoint (remote := sample_remote ok_empty) 0
    (Compilers {["ssl" := VBool true]}) open_world
  = (Raise TypeError, open_world)
  ∧ call_endpoint (remote := sample_remote ok_empty) 0
      (GetPermlink "abc" {["url" := VStr "http://example.org"]}) world0
    = (Raise TypeError, world0).
Proof.
  split.
  - apply (reserved_keywords_rejected (remote := sample_remote ok_empty)).
    right. split; [|by exists first_session].
    simpl. rewrite lookup_singleton_eq. by eexists.
  - apply (reserved_keywords_rejected (remote := sample_remote ok_empty)).
    left. simpl. rewrite lookup_singleton_eq. by eexists.
Defined.

Lemma kwargs_pass_through_witness :
  req_kwargs permlink_request !! "timeout" = Some (VInt 5)
  ∧ req_kwargs permlink_request !! "proxy" = None.
Proof.
  split.
  - etrans;
      [exact (kwargs_pass_through (remote := sample_remote ok_empty) 0
                (GetPermlink "abc" {["timeout" := VInt 5]}) open_world
                first_session permlink_request "timeout"
                permlink_request_sent ltac:(done) ltac:(done) ltac:(done))|].
    simpl. apply lookup_singleton_eq.
  - etrans;
      [exact (kwargs_pass_through (remote := sample_remote ok_empty) 0
                (GetPermlink "abc" {["timeout" := VInt 5]}) open_world
                first_session permlink_request "proxy"
                permlink_request_sent ltac:(done) ltac:(done) ltac:(done))|].
    simpl. by apply lookup_singleton_ne.
Defined.

Lemma no_session_no_request_witness :
  session_of world0 0 = None
  ∧ (call_endpoint (remote := sample_remote ok_empty) 0 (Compilers ∅) world0
     = (Raise AttributeError, world0)
     ∨ call_endpoint (remote := sample_remote ok_empty) 0 (Compilers ∅) world0
       = (Raise TypeError, world0)).
Proof.
  split; [reflexivity|].
  apply (no_session_no_request (remote := sample_remote ok_empty)).
  reflexivity.
Defined.

Lemma own_keyword_collides_witness :
  compilers (remote := sample_remote ok_empty) 0 {["headers" := VDict []]}
    open_world = (Raise TypeError, open_world)
  ∧ get_user (remote := sample_remote ok_empty) 0 (VStr "tok")
      {["data" := VStr "x"]} open_world = (Raise TypeError, open_world).
Proof.
  split.
  - apply (own_keyword_collides (remote := sample_remote ok_empty) 0 VNone).
    rewrite lookup_singleton_eq. by eexists.
  - apply (own_keyword_collides (remote := sample_remote ok_empty)).
    rewrite lookup_singleton_eq. by eexists.
Defined.

Lemma user_request_sent :
  EvSend first_session user_request
    ∈ new_events (get_user (remote := sample_remote ok_empty) 0 (VStr "tok") ∅)
        open_world.
Proof. vm_compute. apply list_elem_of_here. Qed.

Lemma get_user_body_witness :
  req_kwargs user_request !! "data"
  = Some (VStr ("{" ++ dumps_str "session" ++ ": " ++ dumps_str "tok" ++ "}")).
Proof.
  etrans;
    [exact (get_user_body (remote := sample_remote ok_empty) 0 (VStr "tok") ∅
              open_world first_session user_request user_request_sent)|].
  vm_compute. reflexivity.
Defined.
